(** * github-mcp: the session-scoped protocol server of [src/index.js]

    A shallow embedding of the request handler registered for
    [CallToolRequestSchema], of the logging utilities, of the upstream
    request primitive [githubRequest] with the operation handlers built on
    it, of the session table behind [POST /mcp] and [DELETE /mcp], of the
    tool list returned for [ListToolsRequestSchema] and of the two
    informational routes [GET /health] and [GET /mcp].

    JavaScript values are embedded as a tree ([value]); code that can throw
    returns in an error monad; code that talks to the outside (the upstream
    API, the clock, the console) runs in a state-and-error monad over an
    explicit [world]. *)

From Stdlib Require Import QArith Qcanon.
From stdpp Require Import gmap strings list fin_maps pretty.

Set Warnings "-register-all".

(** ** Values

    The values the program handles come out of [JSON.parse] (request
    arguments, upstream response bodies) or are object literals built from
    them.  A string is held as its text in UTF-8, which is how the literals
    of this file are read; its [length] property counts UTF-16 code units
    and is computed from the text ([units] below).  A number is an IEEE
    double: a rational, or an
    infinity ([JSON.parse] yields [Infinity] on overflow); both zeros behave
    alike everywhere in this program and are identified.  [NaN] never is a
    stored value here and only shows up as the result of a conversion, where
    it is [None]. *)

Inductive number :=
| Fin (q : Qc)
| PosInf
| NegInf.

Inductive value :=
| VUndefined
| VNull
| VBool (b : bool)
| VNum (n : number)
| VStr (s : string)
| VArr (l : list value)
| VObj (o : gmap string value).

Abbreviation object := (gmap string value).

(** *** Strings and their code units

    In UTF-8 a byte [10xxxxxx] continues a character and any other byte
    starts one.  A character of four bytes (a first byte from [11110000]
    on) lies beyond the basic plane and takes two code units in UTF-16, a
    surrogate pair; every other character takes one.  A lone surrogate, as
    cutting a string inside a pair leaves one, is written in three bytes
    like any other code unit of its size. *)
Definition continuation (b : Ascii.ascii) : bool :=
  (128 <=? Ascii.N_of_ascii b)%N && (Ascii.N_of_ascii b <? 192)%N.

Definition width (b : Ascii.ascii) : nat :=
  if continuation b then 0
  else if (240 <=? Ascii.N_of_ascii b)%N then 2
  else 1.

(** [s.length] *)
Fixpoint units (s : string) : nat :=
  match s with
  | EmptyString => 0
  | String b s => width b + units s
  end.

(** A code unit from [0x0800] on, in three bytes. *)
Definition three_bytes (u : N) : string :=
  String (Ascii.ascii_of_N (224 + u / 4096))
    (String (Ascii.ascii_of_N (128 + (u / 64) mod 64))
       (String (Ascii.ascii_of_N (128 + u mod 64)) EmptyString)).

(** The surrogate pair of a character of four bytes. *)
Definition surrogates (c : string) : string * string :=
  let byte i := match String.get i c with
                | Some b => Ascii.N_of_ascii b
                | None => 128%N
                end in
  let point := ((byte 0%nat mod 8) * 262144 + (byte 1%nat mod 64) * 4096 +
                (byte 2%nat mod 64) * 64 + byte 3%nat mod 64)%N in
  let v := (point - 65536)%N in
  (three_bytes (55296 + v / 1024), three_bytes (56320 + v mod 1024)).

(** [s.substring(0, n)]: the characters that fit in [n] code units, and
    the first half of the pair that [n] cuts, if it cuts one. *)
Fixpoint substring_to_units (n : nat) (s : string) : string :=
  match s with
  | EmptyString => EmptyString
  | String b s' =>
      if (width b <=? n)%nat then String b (substring_to_units (n - width b) s')
      else match n with
           | 0 => EmptyString
           | S _ => fst (surrogates s)
           end
  end.

(** The characters of a text, after the continuation bytes it starts
    with, if any. *)
Fixpoint characters (s : string) : string * list string :=
  match s with
  | EmptyString => (EmptyString, [])
  | String b s =>
      let '(rest, cs) := characters s in
      if continuation b then (String b rest, cs)
      else (EmptyString, String b rest :: cs)
  end.

(** The code units of a string, each as a string of length 1: what
    indexing a string gives. *)
Definition code_units (s : string) : list string :=
  c ← (characters s).2;
  match c with
  | String b _ =>
      if (240 <=? Ascii.N_of_ascii b)%N then [fst (surrogates c); snd (surrogates c)]
      else [c]
  | EmptyString => []
  end.

Definition number_of_Z (z : Z) : number := Fin (Q2Qc (inject_Z z)).
Definition number_of_nat (n : nat) : number := number_of_Z (Z.of_nat n).
Definition num (z : Z) : value := VNum (number_of_Z z).

(** Errors carry the constructor that made them and a [message]. *)
Inductive exn :=
| Error (msg : string)
| TypeError (msg : string)
| SyntaxError (msg : string).

Definition message (e : exn) : string :=
  match e with Error m | TypeError m | SyntaxError m => m end.

(** Faults the engine raises by itself.  The wording of their messages is
    the engine's and is supplied by the runtime. *)
Inductive fault :=
| ReadOfNullish (base : value) (prop : string)
| NotAFunction (callee : string)
| NotPrimitive
| BadJSON.

Inductive result (A : Type) :=
| Ok (a : A)
| Throw (e : exn).
Arguments Ok {A} a.
Arguments Throw {A} e.

#[global] Instance result_ret : MRet result := λ A a, Ok a.
#[global] Instance result_bind : MBind result := λ A B k r,
  match r with Ok a => k a | Throw e => Throw e end.

(** An HTTP exchange with the upstream API. *)
Record http_request := {
  url : string;
  method : string;
  headers : list (string * string);
  body : option string
}.

Record response := {
  status : Z;
  statusText : string;
  (** what [response.json()] resolves to, [None] when the body is not JSON *)
  json : option value
}.

Inductive fetch_result :=
| Responded (r : response)
| Rejected (e : exn).

(** ** The runtime

    What the program takes from its host rather than defines: the upstream
    service and the clock (both may answer differently each time, whence the
    state [U]), the environment variable, and the library functions whose
    result is text.  Nothing is assumed about them. *)
Record runtime (U : Type) := {
  fetch : http_request → U → fetch_result * U;
  Date_now : U → Z * U;
  toISOString : Z → string;
  env_GITHUB_TOKEN : option string;
  (** [JSON.stringify(v, null, indent)] for [v] other than [undefined] *)
  JSON_text : nat → value → string;
  (** [Number::toString] outside the plain-decimal integers *)
  Number_toString : number → string;
  (** [StringToNumber], [None] for [NaN] *)
  StringToNumber : string → option number;
  fault_message : fault → string;
  (** [Buffer.from(v).toString('base64')] *)
  Buffer_to_base64 : value → result string;
  (** [Buffer.from(v, 'base64').toString('utf-8')] *)
  Buffer_from_base64 : value → result string;
  (** [new URLSearchParams(record).toString()] on converted entries *)
  URLSearchParams_toString : list (string * string) → string
}.
Arguments fetch {U} _ _ _.
Arguments Date_now {U} _ _.
Arguments toISOString {U} _ _.
Arguments env_GITHUB_TOKEN {U} _.
Arguments JSON_text {U} _ _ _.
Arguments Number_toString {U} _ _.
Arguments StringToNumber {U} _ _.
Arguments fault_message {U} _ _.
Arguments Buffer_to_base64 {U} _ _.
Arguments Buffer_from_base64 {U} _ _.
Arguments URLSearchParams_toString {U} _ _.

Section Coercions.
Context {U : Type} (rt : runtime U).

Definition raise {A} (f : fault) : result A :=
  Throw (TypeError (fault_message rt f)).

(** ToBoolean *)
Definition truthy (v : value) : bool :=
  match v with
  | VUndefined | VNull => false
  | VBool b => b
  | VNum (Fin q) => negb (bool_decide (q = 0%Qc))
  | VNum _ => true
  | VStr s => negb (bool_decide (s = ""))
  | VArr _ | VObj _ => true
  end.

(** [a || b] *)
Definition or_else (a b : value) : value := if truthy a then a else b.

(** A default parameter value applies exactly when the argument is
    [undefined]. *)
Definition default_to (d v : value) : value :=
  match v with VUndefined => d | _ => v end.

(** Number::toString: an integer below 2^53 in magnitude prints as its
    decimal digits.  (From there on a double prints with the shortest
    digits that read back as it, padded with zeros, which is left to the
    runtime.) *)
Definition number_to_string (n : number) : string :=
  match n with
  | Fin q =>
      if bool_decide (Qden (this q) = 1%positive ∧ (Z.abs (Qnum (this q)) < 2 ^ 53)%Z)
      then pretty (Qnum (this q))
      else Number_toString rt n
  | PosInf => "Infinity"
  | NegInf => "-Infinity"
  end.

Definition join (sep : string) (l : list string) : string :=
  match l with
  | [] => ""
  | s :: l => foldl (λ acc t, acc +:+ sep +:+ t) s l
  end.

(** ToString, as a template literal applies it.  Objects go through
    OrdinaryToPrimitive: a parsed object has [Object.prototype] as its
    prototype and only data properties, none of them callable, so an own
    [toString] property hides the inherited method and leaves no way to a
    primitive ([valueOf] returns the object itself).  Arrays print through
    [join], where [undefined] and [null] elements print as nothing. *)
Fixpoint ToString (v : value) : result string :=
  match v with
  | VUndefined => Ok "undefined"
  | VNull => Ok "null"
  | VBool b => Ok (if b then "true" else "false")
  | VNum n => Ok (number_to_string n)
  | VStr s => Ok s
  | VArr l =>
      parts ← (fix elems (l : list value) : result (list string) :=
                 match l with
                 | [] => Ok []
                 | x :: l =>
                     s ← match x with
                         | VUndefined | VNull => Ok ""
                         | _ => ToString x
                         end;
                     ss ← elems l;
                     Ok (s :: ss)
                 end) l;
      Ok (join "," parts)
  | VObj o =>
      match o !! "toString" with
      | Some _ => raise NotPrimitive
      | None => Ok "[object Object]"
      end
  end.

(** [v.toString()], the method call: as [ToString] on what has the
    method, a TypeError on [undefined], [null] and on an object whose own
    [toString] property hides it. *)
Definition call_toString (callee : string) (v : value) : result string :=
  match v with
  | VUndefined | VNull => raise (ReadOfNullish v "toString")
  | VObj o =>
      match o !! "toString" with
      | Some _ => raise (NotAFunction callee)
      | None => Ok "[object Object]"
      end
  | _ => ToString v
  end.

(** ToNumber on a primitive, [None] for [NaN] *)
Definition ToNumber (v : value) : option number :=
  match v with
  | VUndefined => None
  | VNull => Some (number_of_Z 0)
  | VBool b => Some (number_of_Z (if b then 1 else 0))
  | VNum n => Some n
  | VStr s => StringToNumber rt s
  | VArr _ | VObj _ => None
  end.

Definition number_lt (a b : number) : bool :=
  match a, b with
  | Fin p, Fin q => bool_decide (p < q)%Qc
  | NegInf, (Fin _ | PosInf) => true
  | Fin _, PosInf => true
  | _, _ => false
  end.

(** [v > k] for a number [k]: [v] is first brought to a primitive (for an
    array or an object that is its string, or a TypeError), then to a
    number; a comparison with [NaN] is [false]. *)
Definition greater_than (v : value) (k : Z) : result bool :=
  p ← match v with
      | VArr _ | VObj _ => s ← ToString v; Ok (VStr s)
      | _ => Ok v
      end;
  Ok match ToNumber p with
     | Some n => number_lt (number_of_Z k) n
     | None => false
     end.

(** [v.k], a property read.  The names the program reads are never array
    indices nor, [length] apart, members of a built-in prototype. *)
Definition get (v : value) (k : string) : result value :=
  match v with
  | VUndefined | VNull => raise (ReadOfNullish v k)
  | VObj o => Ok (default VUndefined (o !! k))
  | VStr s => Ok (if bool_decide (k = "length")
                  then VNum (number_of_nat (units s)) else VUndefined)
  | VArr l => Ok (if bool_decide (k = "length")
                  then VNum (number_of_nat (length l)) else VUndefined)
  | VBool _ | VNum _ => Ok VUndefined
  end.

(** [{ ...v }] for a truthy [v]: the own enumerable properties, which for
    a string or an array are its indexed elements. *)
Definition indexed {A} (l : list A) : gmap string A :=
  list_to_map (imap (λ i x, (pretty i, x)) l).

Definition spread (v : value) : object :=
  match v with
  | VObj o => o
  | VArr l => indexed l
  | VStr s => indexed (VStr <$> code_units s)
  | _ => ∅
  end.
End Coercions.

(** ** Effects

    The [world] is what a call can change: the state of the outside ([ext]),
    the requests sent upstream so far ([sent], newest last) and the lines
    written to the console ([console], newest last).  A computation either
    returns or throws, and leaves a world behind in both cases. *)
Record world (U : Type) := {
  ext : U;
  sent : list http_request;
  console : list string
}.
Arguments ext {U} _.
Arguments sent {U} _.
Arguments console {U} _.

Definition M (U A : Type) : Type := world U → result A * world U.

#[global] Instance M_ret {U} : MRet (M U) := λ A a w, (Ok a, w).
#[global] Instance M_bind {U} : MBind (M U) := λ A B k m w,
  match m w with
  | (Ok a, w') => k a w'
  | (Throw e, w') => (Throw e, w')
  end.

Definition lift {U A} (r : result A) : M U A := λ w, (r, w).
Definition throw {U A} (e : exn) : M U A := λ w, (Throw e, w).

(** [try { body } catch (error) { handler }] *)
Definition try_catch {U A} (body : M U A) (handler : exn → M U A) : M U A :=
  λ w, match body w with
       | (Ok a, w') => (Ok a, w')
       | (Throw e, w') => handler e w'
       end.

Definition console_log {U} (line : string) : M U () :=
  λ w, (Ok (), {| ext := ext w; sent := sent w; console := console w ++ [line] |}).

Section Logging.
Context {U : Type} (rt : runtime U).

(** [Date.now()] *)
Definition now : M U Z :=
  λ w, let '(t, u) := Date_now rt (ext w) in
       (Ok t, {| ext := u; sent := sent w; console := console w |}).

(** [JSON.stringify(v, null, indent)], which is [undefined] on
    [undefined] *)
Definition JSON_stringify (indent : nat) (v : value) : value :=
  match v with
  | VUndefined => VUndefined
  | _ => VStr (JSON_text rt indent v)
  end.

(** A template literal: literal text and substitutions, converted from
    left to right. *)
Inductive piece :=
| Lit (s : string)
| Sub (v : value).

Fixpoint template (ps : list piece) : result string :=
  match ps with
  | [] => Ok ""
  | Lit s :: ps => t ← template ps; Ok (s +:+ t)
  | Sub v :: ps => s ← ToString rt v; t ← template ps; Ok (s +:+ t)
  end.

(** [c.repeat(n)] *)
Definition String_repeat (c : string) (n : nat) : string :=
  String.concat "" (replicate n c).

Definition newline : string := String (Ascii.ascii_of_nat 10) "".

Definition sanitizeArgs (args : value) : result value :=
  if negb (truthy args) then Ok args else
  let sanitized := spread args in
  (* Hide sensitive content but show structure *)
  let content := default VUndefined (sanitized !! "content") in
  sanitized ←
    (if truthy content then
       len ← get rt content "length";
       long ← greater_than rt len 200;
       if (long : bool) then
         text ← template [Lit "["; Sub len; Lit " chars]"];
         Ok (<["content" := VStr text]> sanitized)
       else Ok sanitized
     else Ok sanitized);
  let sanitized :=
    if truthy (default VUndefined (sanitized !! "token"))
    then <["token" := VStr "[REDACTED]"]> sanitized else sanitized in
  let sanitized :=
    if truthy (default VUndefined (sanitized !! "password"))
    then <["password" := VStr "[REDACTED]"]> sanitized else sanitized in
  Ok (VObj sanitized).

(** [sessionId] is [VUndefined] when the caller passes no third
    argument. *)
Definition logToolCall (toolName : string) (args : value) (sessionId : value)
  : M U () :=
  let sessionId := default_to (VStr "unknown") sessionId in
  t ← now;
  let timestamp := toISOString rt t in
  sanitizedArgs ← lift (sanitizeArgs args);
  console_log (newline +:+ String_repeat "═" 70);;
  console_log ("📥 TOOL CALL: " +:+ toolName);;
  console_log (String_repeat "─" 70);;
  console_log ("⏰ Time: " +:+ timestamp);;
  line ← lift (template [Lit "🔑 Session: "; Sub sessionId]);
  console_log line;;
  line ← lift (template [Lit "📝 Arguments: "; Sub (JSON_stringify 2 sanitizedArgs)]);
  console_log line.

(** [s.substring(0, n)], a TypeError when [s] is [undefined] *)
Definition substring_to (n : nat) (s : value) : result string :=
  match s with
  | VStr s => Ok (substring_to_units n s)
  | _ => raise rt (ReadOfNullish s "substring")
  end.

Definition logToolResult (toolName : string) (result : value) (duration : Z)
    (isError : bool) : M U () :=
  let icon := if isError then "❌" else "✅" in
  let status := if isError then "ERROR" else "SUCCESS" in
  console_log (String_repeat "─" 70);;
  console_log (icon +:+ " Result: " +:+ status +:+ " (" +:+
               number_to_string rt (number_of_Z duration) +:+ "ms)");;
  (if isError then
     line ← lift (template [Lit "💥 Error: "; Sub result]);
     console_log line
   else
     preview ← lift (substring_to 500 (JSON_stringify 0 result));
     console_log ("📤 Response: " +:+ preview +:+
                  (if (500 <=? units preview)%nat then "..." else "")));;
  console_log (String_repeat "═" 70 +:+ newline).
End Logging.

(** ** The upstream request primitive and the operations built on it *)
Section GitHub.
Context {U : Type} (rt : runtime U).

Definition GITHUB_API_URL : string := "https://api.github.com".

(** [process.env.GITHUB_TOKEN || ''] *)
Definition getGithubToken : string := default "" (env_GITHUB_TOKEN rt).

(** An object literal *)
Definition obj (fields : list (string * value)) : value :=
  VObj (list_to_map fields).

(** [fetch(url, options)]: the request is recorded, the outside answers. *)
Definition send (req : http_request) : M U fetch_result :=
  λ w, let '(r, u) := fetch rt req (ext w) in
       (Ok r, {| ext := u; sent := sent w ++ [req]; console := console w |}).

Definition settle (r : fetch_result) : result response :=
  match r with Responded r => Ok r | Rejected e => Throw e end.

(** [githubRequest] up to its [fetch]: the credential check and the
    request it is about to send. *)
Definition request_options (endpoint method : string) (body : value)
  : result http_request :=
  let githubToken := getGithubToken in
  if negb (truthy (VStr githubToken))
  then Throw (Error "GITHUB_TOKEN environment variable is not set")
  else Ok {| url := GITHUB_API_URL +:+ endpoint;
             method := method;
             headers := [("Authorization", "Bearer " +:+ githubToken);
                         ("Accept", "application/vnd.github.v3+json");
                         ("Content-Type", "application/json");
                         ("X-GitHub-Api-Version", "2022-11-28")];
             body := if truthy body then Some (JSON_text rt 0 body) else None |}.

(** [response.ok] *)
Definition ok (r : response) : bool :=
  bool_decide (200 ≤ status r ≤ 299)%Z.

(** [githubRequest] from the response on. *)
Definition read_response (r : response) : result value :=
  if bool_decide (status r = 204%Z) then Ok (obj [("success", VBool true)])
  else if negb (ok r) then
    let error := match json r with
                 | Some v => v
                 | None => obj [("message", VStr (statusText r))]
                 end in
    m ← get rt error "message";
    (* [new Error(x)] takes ToString of [x] as its message *)
    msg ← ToString rt (or_else m (VStr ("GitHub API error: " +:+ pretty (status r))));
    Throw (Error msg)
  else match json r with
       | Some v => Ok v
       | None => Throw (SyntaxError (fault_message rt BadJSON))
       end.

(** [method] defaults to ['GET'] and [body] to [null] at the call sites
    that leave them out. *)
Definition githubRequest (endpoint method : string) (body : value) : M U value :=
  req ← lift (request_options endpoint method body);
  r ← send req;
  lift (r ← settle r; read_response r).

Definition githubGetUser : M U value :=
  githubRequest "/user" "GET" VNull.

Definition githubVerifyToken : M U value :=
  try_catch
    (user ← githubGetUser;
     login ← lift (get rt user "login");
     name ← lift (get rt user "name");
     email ← lift (get rt user "email");
     avatar_url ← lift (get rt user "avatar_url");
     mret (obj [("valid", VBool true);
                ("user", obj [("login", login); ("name", name);
                              ("email", email); ("avatar_url", avatar_url)])]))
    (λ error, mret (obj [("valid", VBool false); ("error", VStr (message error))])).

Definition githubListRepositories (sort perPage : value) : M U value :=
  let sort := default_to (VStr "updated") sort in
  let perPage := default_to (num 30) perPage in
  endpoint ← lift (template rt [Lit "/user/repos?sort="; Sub sort;
                                Lit "&per_page="; Sub perPage]);
  githubRequest endpoint "GET" VNull.

Definition githubGetRepository (owner repo : value) : M U value :=
  endpoint ← lift (template rt [Lit "/repos/"; Sub owner; Lit "/"; Sub repo]);
  githubRequest endpoint "GET" VNull.

Definition githubCreateRepository (name description isPrivate autoInit : value)
  : M U value :=
  let description := default_to (VStr "") description in
  let isPrivate := default_to (VBool false) isPrivate in
  let autoInit := default_to (VBool true) autoInit in
  githubRequest "/user/repos" "POST"
    (obj [("name", name); ("description", description);
          ("private", isPrivate); ("auto_init", autoInit)]).

Definition githubDeleteRepository (owner repo : value) : M U value :=
  endpoint ← lift (template rt [Lit "/repos/"; Sub owner; Lit "/"; Sub repo]);
  githubRequest endpoint "DELETE" VNull.

(** [data.decodedContent = x]; only reached with an object, as nothing
    else has a truthy [content] property. *)
Definition assign (data : value) (k : string) (x : value) : value :=
  match data with VObj o => VObj (<[k := x]> o) | _ => data end.

Definition githubGetFileContents (owner repo path ref : value) : M U value :=
  let ref := default_to (VStr "main") ref in
  endpoint ← lift (template rt [Lit "/repos/"; Sub owner; Lit "/"; Sub repo;
                                Lit "/contents/"; Sub path; Lit "?ref="; Sub ref]);
  data ← githubRequest endpoint "GET" VNull;
  content ← lift (get rt data "content");
  if truthy content then
    encoding ← lift (get rt data "encoding");
    match encoding with
    | VStr "base64" =>
        decoded ← lift (Buffer_from_base64 rt content);
        mret (assign data "decodedContent" (VStr decoded))
    | _ => mret data
    end
  else mret data.

Definition githubCreateOrUpdateFile
    (owner repo path content message branch sha : value) : M U value :=
  let branch := default_to (VStr "main") branch in
  let sha := default_to VNull sha in
  encoded ← lift (Buffer_to_base64 rt content);
  let body := [("message", message); ("content", VStr encoded); ("branch", branch)] in
  let body := if truthy sha then (body ++ [("sha", sha)])%list else body in
  endpoint ← lift (template rt [Lit "/repos/"; Sub owner; Lit "/"; Sub repo;
                                Lit "/contents/"; Sub path]);
  githubRequest endpoint "PUT" (obj body).

Definition githubDeleteFile (owner repo path message sha branch : value)
  : M U value :=
  let branch := default_to (VStr "main") branch in
  endpoint ← lift (template rt [Lit "/repos/"; Sub owner; Lit "/"; Sub repo;
                                Lit "/contents/"; Sub path]);
  githubRequest endpoint "DELETE"
    (obj [("message", message); ("sha", sha); ("branch", branch)]).

(** The callback [githubPushFiles] maps over [files], up to its [fetch]. *)
Definition blob_request (owner repo file : value) : result http_request :=
  endpoint ← template rt [Lit "/repos/"; Sub owner; Lit "/"; Sub repo;
                          Lit "/git/blobs"];
  content ← get rt file "content";
  request_options endpoint "POST"
    (obj [("content", content); ("encoding", VStr "utf-8")]).

(** The same callback from the response on. *)
Definition blob_item (file : value) (r : fetch_result) : result value :=
  blobData ← (r ← settle r; read_response r);
  path ← get rt file "path";
  sha ← get rt blobData "sha";
  Ok (obj [("path", path); ("mode", VStr "100644");
           ("type", VStr "blob"); ("sha", sha)]).

(** [files.map(callback)] runs every callback up to its first suspension,
    in order: each one either fails on the spot or has its request sent.
    None of this throws into the caller; failures live in the promises. *)
Fixpoint start_all (owner repo : value) (files : list value)
  : M U (list (value * (exn + fetch_result))) :=
  match files with
  | [] => mret []
  | file :: files =>
      p ← match blob_request owner repo file with
          | Throw e => mret (inl e)
          | Ok req => r ← send req; mret (inr r)
          end;
      ps ← start_all owner repo files;
      mret ((file, p) :: ps)
  end.

(** [Promise.all]: the array of results, or the reason of the promise
    that rejects first.  Promises that failed before suspending are
    already rejected when [Promise.all] subscribes and win in array
    order; the others settle as their responses come in, taken here in
    the order the requests were sent. *)
Fixpoint already_rejected (ps : list (value * (exn + fetch_result)))
  : option exn :=
  match ps with
  | [] => None
  | (_, inl e) :: _ => Some e
  | (_, inr _) :: ps => already_rejected ps
  end.

Definition Promise_all (ps : list (value * (exn + fetch_result)))
  : result (list value) :=
  match already_rejected ps with
  | Some e => Throw e
  | None => mapM (λ p, match snd p with
                       | inl e => Throw e
                       | inr r => blob_item (fst p) r
                       end) ps
  end.

(** [files.map]: only an array has the method. *)
Definition elements_for_map (files : value) : result (list value) :=
  match files with
  | VArr l => Ok l
  | VUndefined | VNull => raise rt (ReadOfNullish files "map")
  | _ => raise rt (NotAFunction "files.map")
  end.

Definition githubPushFiles (owner repo files message branch : value) : M U value :=
  let branch := default_to (VStr "main") branch in
  endpoint ← lift (template rt [Lit "/repos/"; Sub owner; Lit "/"; Sub repo;
                                Lit "/git/ref/heads/"; Sub branch]);
  refData ← githubRequest endpoint "GET" VNull;
  currentCommitSha ← lift (o ← get rt refData "object"; get rt o "sha");

  endpoint ← lift (template rt [Lit "/repos/"; Sub owner; Lit "/"; Sub repo;
                                Lit "/git/commits/"; Sub currentCommitSha]);
  commitData ← githubRequest endpoint "GET" VNull;
  baseTreeSha ← lift (t ← get rt commitData "tree"; get rt t "sha");

  fs ← lift (elements_for_map files);
  ps ← start_all owner repo fs;
  treeItems ← lift (Promise_all ps);

  endpoint ← lift (template rt [Lit "/repos/"; Sub owner; Lit "/"; Sub repo;
                                Lit "/git/trees"]);
  newTree ← githubRequest endpoint "POST"
    (obj [("base_tree", baseTreeSha); ("tree", VArr treeItems)]);

  endpoint ← lift (template rt [Lit "/repos/"; Sub owner; Lit "/"; Sub repo;
                                Lit "/git/commits"]);
  tree ← lift (get rt newTree "sha");
  newCommit ← githubRequest endpoint "POST"
    (obj [("message", message); ("tree", tree);
          ("parents", VArr [currentCommitSha])]);

  endpoint ← lift (template rt [Lit "/repos/"; Sub owner; Lit "/"; Sub repo;
                                Lit "/git/refs/heads/"; Sub branch]);
  sha ← lift (get rt newCommit "sha");
  githubRequest endpoint "PATCH" (obj [("sha", sha)]);;

  filesUpdated ← lift (get rt files "length");
  mret (obj [("commit", newCommit); ("filesUpdated", filesUpdated)]).

Definition githubListBranches (owner repo : value) : M U value :=
  endpoint ← lift (template rt [Lit "/repos/"; Sub owner; Lit "/"; Sub repo;
                                Lit "/branches"]);
  githubRequest endpoint "GET" VNull.

Definition githubGetBranch (owner repo branch : value) : M U value :=
  endpoint ← lift (template rt [Lit "/repos/"; Sub owner; Lit "/"; Sub repo;
                                Lit "/branches/"; Sub branch]);
  githubRequest endpoint "GET" VNull.

Definition githubCreateBranch (owner repo branchName fromBranch : value)
  : M U value :=
  let fromBranch := default_to (VStr "main") fromBranch in
  sourceBranch ← githubGetBranch owner repo fromBranch;
  sha ← lift (c ← get rt sourceBranch "commit"; get rt c "sha");
  endpoint ← lift (template rt [Lit "/repos/"; Sub owner; Lit "/"; Sub repo;
                                Lit "/git/refs"]);
  ref ← lift (template rt [Lit "refs/heads/"; Sub branchName]);
  githubRequest endpoint "POST" (obj [("ref", VStr ref); ("sha", sha)]).

Definition githubDeleteBranch (owner repo branch : value) : M U value :=
  endpoint ← lift (template rt [Lit "/repos/"; Sub owner; Lit "/"; Sub repo;
                                Lit "/git/refs/heads/"; Sub branch]);
  githubRequest endpoint "DELETE" VNull.

Definition githubListCommits (owner repo branch perPage : value) : M U value :=
  let branch := default_to (VStr "main") branch in
  let perPage := default_to (num 30) perPage in
  endpoint ← lift (template rt [Lit "/repos/"; Sub owner; Lit "/"; Sub repo;
                                Lit "/commits?sha="; Sub branch;
                                Lit "&per_page="; Sub perPage]);
  githubRequest endpoint "GET" VNull.

Definition githubGetCommit (owner repo sha : value) : M U value :=
  endpoint ← lift (template rt [Lit "/repos/"; Sub owner; Lit "/"; Sub repo;
                                Lit "/commits/"; Sub sha]);
  githubRequest endpoint "GET" VNull.

Definition githubCreatePullRequest (owner repo title head base body draft : value)
  : M U value :=
  let body := default_to (VStr "") body in
  let draft := default_to (VBool false) draft in
  endpoint ← lift (template rt [Lit "/repos/"; Sub owner; Lit "/"; Sub repo;
                                Lit "/pulls"]);
  githubRequest endpoint "POST"
    (obj [("title", title); ("head", head); ("base", base);
          ("body", body); ("draft", draft)]).

Definition githubListPullRequests (owner repo state perPage : value) : M U value :=
  let state := default_to (VStr "open") state in
  let perPage := default_to (num 30) perPage in
  endpoint ← lift (template rt [Lit "/repos/"; Sub owner; Lit "/"; Sub repo;
                                Lit "/pulls?state="; Sub state;
                                Lit "&per_page="; Sub perPage]);
  githubRequest endpoint "GET" VNull.

Definition githubGetPullRequest (owner repo pullNumber : value) : M U value :=
  endpoint ← lift (template rt [Lit "/repos/"; Sub owner; Lit "/"; Sub repo;
                                Lit "/pulls/"; Sub pullNumber]);
  githubRequest endpoint "GET" VNull.

Definition githubMergePullRequest
    (owner repo pullNumber commitTitle commitMessage mergeMethod : value)
  : M U value :=
  let commitTitle := default_to (VStr "") commitTitle in
  let commitMessage := default_to (VStr "") commitMessage in
  let mergeMethod := default_to (VStr "merge") mergeMethod in
  endpoint ← lift (template rt [Lit "/repos/"; Sub owner; Lit "/"; Sub repo;
                                Lit "/pulls/"; Sub pullNumber; Lit "/merge"]);
  githubRequest endpoint "PUT"
    (obj [("commit_title", commitTitle); ("commit_message", commitMessage);
          ("merge_method", mergeMethod)]).

Definition githubCreateIssue (owner repo title body labels assignees : value)
  : M U value :=
  let body := default_to (VStr "") body in
  let labels := default_to (VArr []) labels in
  let assignees := default_to (VArr []) assignees in
  endpoint ← lift (template rt [Lit "/repos/"; Sub owner; Lit "/"; Sub repo;
                                Lit "/issues"]);
  githubRequest endpoint "POST"
    (obj [("title", title); ("body", body);
          ("labels", labels); ("assignees", assignees)]).

Definition githubListIssues (owner repo state perPage : value) : M U value :=
  let state := default_to (VStr "open") state in
  let perPage := default_to (num 30) perPage in
  endpoint ← lift (template rt [Lit "/repos/"; Sub owner; Lit "/"; Sub repo;
                                Lit "/issues?state="; Sub state;
                                Lit "&per_page="; Sub perPage]);
  githubRequest endpoint "GET" VNull.

Definition githubAddComment (owner repo issueNumber body : value) : M U value :=
  endpoint ← lift (template rt [Lit "/repos/"; Sub owner; Lit "/"; Sub repo;
                                Lit "/issues/"; Sub issueNumber; Lit "/comments"]);
  githubRequest endpoint "POST" (obj [("body", body)]).

Definition githubGetTree (owner repo sha recursive : value) : M U value :=
  let sha := default_to (VStr "main") sha in
  let recursive := default_to (VBool true) recursive in
  let params := if truthy recursive then "?recursive=1" else "" in
  endpoint ← lift (template rt [Lit "/repos/"; Sub owner; Lit "/"; Sub repo;
                                Lit "/git/trees/"; Sub sha; Lit params]);
  githubRequest endpoint "GET" VNull.

Definition githubListContents (owner repo path ref : value) : M U value :=
  let path := default_to (VStr "") path in
  let ref := default_to (VStr "main") ref in
  endpoint ← lift (if truthy path
                   then template rt [Lit "/repos/"; Sub owner; Lit "/"; Sub repo;
                                     Lit "/contents/"; Sub path; Lit "?ref="; Sub ref]
                   else template rt [Lit "/repos/"; Sub owner; Lit "/"; Sub repo;
                                     Lit "/contents?ref="; Sub ref]);
  githubRequest endpoint "GET" VNull.

(** [new URLSearchParams(record)] converts every value to a string, in
    the order of the keys. *)
Definition URLSearchParams (record : list (string * value)) : result string :=
  entries ← mapM (λ kv, s ← ToString rt (snd kv); Ok (fst kv, s)) record;
  Ok (URLSearchParams_toString rt entries).

Definition githubSearchRepositories (query sort order perPage : value)
  : M U value :=
  let sort := default_to (VStr "stars") sort in
  let order := default_to (VStr "desc") order in
  let perPage := default_to (num 10) perPage in
  per_page ← lift (call_toString rt "perPage.toString" perPage);
  params ← lift (URLSearchParams [("q", query); ("sort", sort); ("order", order);
                                  ("per_page", VStr per_page)]);
  githubRequest ("/search/repositories?" +:+ params) "GET" VNull.

Definition githubSearchCode (query perPage : value) : M U value :=
  let perPage := default_to (num 30) perPage in
  per_page ← lift (call_toString rt "perPage.toString" perPage);
  params ← lift (URLSearchParams [("q", query); ("per_page", VStr per_page)]);
  githubRequest ("/search/code?" +:+ params) "GET" VNull.
End GitHub.

(** ** The operation catalog and the call handler *)

(** The names the [ListToolsRequestSchema] handler advertises, in order. *)
Definition catalog : list string :=
  ["github_verify_token";
   "github_get_user";
   "github_list_repositories";
   "github_get_repository";
   "github_create_repository";
   "github_delete_repository";
   "github_get_file_contents";
   "github_create_or_update_file";
   "github_delete_file";
   "github_push_files";
   "github_list_branches";
   "github_create_branch";
   "github_delete_branch";
   "github_list_commits";
   "github_get_commit";
   "github_create_pull_request";
   "github_list_pull_requests";
   "github_get_pull_request";
   "github_merge_pull_request";
   "github_create_issue";
   "github_list_issues";
   "github_add_comment";
   "github_get_tree";
   "github_list_contents";
   "github_search_repositories";
   "github_search_code"].

(** One constructor per [case] of the [switch], named after its label. *)
Inductive tool :=
| github_verify_token
| github_get_user
| github_list_repositories
| github_get_repository
| github_create_repository
| github_delete_repository
| github_get_file_contents
| github_create_or_update_file
| github_delete_file
| github_push_files
| github_list_branches
| github_create_branch
| github_delete_branch
| github_list_commits
| github_get_commit
| github_create_pull_request
| github_list_pull_requests
| github_get_pull_request
| github_merge_pull_request
| github_create_issue
| github_list_issues
| github_add_comment
| github_get_tree
| github_list_contents
| github_search_repositories
| github_search_code.

Definition case_labels : list (string * tool) :=
  [("github_verify_token", github_verify_token);
   ("github_get_user", github_get_user);
   ("github_list_repositories", github_list_repositories);
   ("github_get_repository", github_get_repository);
   ("github_create_repository", github_create_repository);
   ("github_delete_repository", github_delete_repository);
   ("github_get_file_contents", github_get_file_contents);
   ("github_create_or_update_file", github_create_or_update_file);
   ("github_delete_file", github_delete_file);
   ("github_push_files", github_push_files);
   ("github_list_branches", github_list_branches);
   ("github_create_branch", github_create_branch);
   ("github_delete_branch", github_delete_branch);
   ("github_list_commits", github_list_commits);
   ("github_get_commit", github_get_commit);
   ("github_create_pull_request", github_create_pull_request);
   ("github_list_pull_requests", github_list_pull_requests);
   ("github_get_pull_request", github_get_pull_request);
   ("github_merge_pull_request", github_merge_pull_request);
   ("github_create_issue", github_create_issue);
   ("github_list_issues", github_list_issues);
   ("github_add_comment", github_add_comment);
   ("github_get_tree", github_get_tree);
   ("github_list_contents", github_list_contents);
   ("github_search_repositories", github_search_repositories);
   ("github_search_code", github_search_code)].

(** [switch (name)]: the first [case] whose label is strictly equal to
    [name], or the [default] clause. *)
Fixpoint case_of (labels : list (string * tool)) (name : string) : option tool :=
  match labels with
  | [] => None
  | (label, t) :: labels =>
      if bool_decide (name = label) then Some t else case_of labels name
  end.

Record call_request := {
  params_name : string;
  (** [undefined] when the request has no [arguments] *)
  params_arguments : value
}.

Section Server.
Context {U : Type} (rt : runtime U).

(** The body of a [case]: the arguments are read off [args] from left to
    right, then the operation is called. *)
Definition run (t : tool) (args : value) : M U value :=
  let arg k : M U value := lift (get rt args k) in
  match t with
  | github_verify_token => githubVerifyToken rt
  | github_get_user => githubGetUser rt
  | github_list_repositories =>
      sort ← arg "sort"; perPage ← arg "perPage";
      githubListRepositories rt sort perPage
  | github_get_repository =>
      owner ← arg "owner"; repo ← arg "repo";
      githubGetRepository rt owner repo
  | github_create_repository =>
      name ← arg "name"; description ← arg "description";
      isPrivate ← arg "isPrivate"; autoInit ← arg "autoInit";
      githubCreateRepository rt name description isPrivate autoInit
  | github_delete_repository =>
      owner ← arg "owner"; repo ← arg "repo";
      githubDeleteRepository rt owner repo
  | github_get_file_contents =>
      owner ← arg "owner"; repo ← arg "repo"; path ← arg "path";
      ref ← arg "ref";
      githubGetFileContents rt owner repo path ref
  | github_create_or_update_file =>
      owner ← arg "owner"; repo ← arg "repo"; path ← arg "path";
      content ← arg "content"; message ← arg "message"; branch ← arg "branch";
      sha ← arg "sha";
      githubCreateOrUpdateFile rt owner repo path content message branch sha
  | github_delete_file =>
      owner ← arg "owner"; repo ← arg "repo"; path ← arg "path";
      message ← arg "message"; sha ← arg "sha"; branch ← arg "branch";
      githubDeleteFile rt owner repo path message sha branch
  | github_push_files =>
      owner ← arg "owner"; repo ← arg "repo"; files ← arg "files";
      message ← arg "message"; branch ← arg "branch";
      githubPushFiles rt owner repo files message branch
  | github_list_branches =>
      owner ← arg "owner"; repo ← arg "repo";
      githubListBranches rt owner repo
  | github_create_branch =>
      owner ← arg "owner"; repo ← arg "repo"; branchName ← arg "branchName";
      fromBranch ← arg "fromBranch";
      githubCreateBranch rt owner repo branchName fromBranch
  | github_delete_branch =>
      owner ← arg "owner"; repo ← arg "repo"; branch ← arg "branch";
      githubDeleteBranch rt owner repo branch
  | github_list_commits =>
      owner ← arg "owner"; repo ← arg "repo"; branch ← arg "branch";
      perPage ← arg "perPage";
      githubListCommits rt owner repo branch perPage
  | github_get_commit =>
      owner ← arg "owner"; repo ← arg "repo"; sha ← arg "sha";
      githubGetCommit rt owner repo sha
  | github_create_pull_request =>
      owner ← arg "owner"; repo ← arg "repo"; title ← arg "title";
      head ← arg "head"; base ← arg "base"; body ← arg "body";
      draft ← arg "draft";
      githubCreatePullRequest rt owner repo title head base body draft
  | github_list_pull_requests =>
      owner ← arg "owner"; repo ← arg "repo"; state ← arg "state";
      perPage ← arg "perPage";
      githubListPullRequests rt owner repo state perPage
  | github_get_pull_request =>
      owner ← arg "owner"; repo ← arg "repo"; pullNumber ← arg "pullNumber";
      githubGetPullRequest rt owner repo pullNumber
  | github_merge_pull_request =>
      owner ← arg "owner"; repo ← arg "repo"; pullNumber ← arg "pullNumber";
      commitTitle ← arg "commitTitle"; commitMessage ← arg "commitMessage";
      mergeMethod ← arg "mergeMethod";
      githubMergePullRequest rt owner repo pullNumber commitTitle commitMessage
        mergeMethod
  | github_create_issue =>
      owner ← arg "owner"; repo ← arg "repo"; title ← arg "title";
      body ← arg "body"; labels ← arg "labels"; assignees ← arg "assignees";
      githubCreateIssue rt owner repo title body labels assignees
  | github_list_issues =>
      owner ← arg "owner"; repo ← arg "repo"; state ← arg "state";
      perPage ← arg "perPage";
      githubListIssues rt owner repo state perPage
  | github_add_comment =>
      owner ← arg "owner"; repo ← arg "repo"; issueNumber ← arg "issueNumber";
      body ← arg "body";
      githubAddComment rt owner repo issueNumber body
  | github_get_tree =>
      owner ← arg "owner"; repo ← arg "repo"; sha ← arg "sha";
      recursive ← arg "recursive";
      githubGetTree rt owner repo sha recursive
  | github_list_contents =>
      owner ← arg "owner"; repo ← arg "repo"; path ← arg "path";
      ref ← arg "ref";
      githubListContents rt owner repo path ref
  | github_search_repositories =>
      query ← arg "query"; sort ← arg "sort"; order ← arg "order";
      perPage ← arg "perPage";
      githubSearchRepositories rt query sort order perPage
  | github_search_code =>
      query ← arg "query"; perPage ← arg "perPage";
      githubSearchCode rt query perPage
  end.

Definition dispatch (name : string) (args : value) : M U value :=
  match case_of case_labels name with
  | Some t => run t args
  | None => throw (Error ("Unknown tool: " +:+ name))
  end.

Definition text_content (text : value) : value :=
  VArr [obj [("type", VStr "text"); ("text", text)]].

Definition success_envelope (text : value) : value :=
  obj [("content", text_content text)].

Definition failure_envelope (text : string) : value :=
  obj [("content", text_content (VStr text)); ("isError", VBool true)].

(** The handler registered for [CallToolRequestSchema]. *)
Definition callTool (request : call_request) : M U value :=
  let name := params_name request in
  let args := params_arguments request in
  startTime ← now rt;

  (* Log the incoming tool call *)
  logToolCall rt name args VUndefined;;

  try_catch
    (result ← dispatch name args;

     (* Log successful result *)
     t ← now rt;
     let duration := (t - startTime)%Z in
     logToolResult rt name result duration false;;

     mret (success_envelope (JSON_stringify rt 2 result)))
    (λ error,
     (* Log error result *)
     t ← now rt;
     let duration := (t - startTime)%Z in
     logToolResult rt name (VStr (message error)) duration true;;

     mret (failure_envelope ("Error: " +:+ message error))).
End Server.

(** ** The session table behind [/mcp]

    Servers and transports are objects; what matters of them here is their
    identity.  The identifier generator, [server.connect] and
    [transport.handleRequest] belong to the host: the generator has a state
    of its own ([G]), the protocol library another ([R]).  Of
    [handleRequest] the table sees two things: whether it ran the
    [onsessioninitialized] callback of the transport, and whether it
    threw. *)
Record session := {
  transport : nat;
  server : nat
}.

Record handled := {
  initialized : bool;
  failure : option exn
}.

Record host (G R : Type) := {
  randomUUID : G → string * G;
  connect : session → R → option exn * R;
  handleRequest : nat → R → handled * R
}.
Arguments randomUUID {G R} _ _.
Arguments connect {G R} _ _ _.
Arguments handleRequest {G R} _ _ _.

(** [callbacks] keeps, for every transport constructed, what its
    [onsessioninitialized] closure captured: the identifier and the pair.
    [objects] counts the objects allocated so far. *)
Record state (G R : Type) := {
  generator : G;
  library : R;
  sessions : gmap string session;
  callbacks : gmap nat (string * session);
  objects : nat
}.
Arguments generator {G R} _.
Arguments library {G R} _.
Arguments sessions {G R} _.
Arguments callbacks {G R} _.
Arguments objects {G R} _.

(** What a [POST /mcp] ends in: the request was handled by the transport
    of [used], or the [catch] clause answered 500.  [header] is the
    [Mcp-Session-Id] response header, if it was set. *)
Inductive reply :=
| Handled (header : string) (used : session)
| InternalError (header : option string) (error : string).

Section Http.
Context {G R : Type} (h : host G R).

Definition initial (g : G) (r : R) : state G R :=
  {| generator := g; library := r; sessions := ∅; callbacks := ∅; objects := 0 |}.

(** [sessionId && sessions.has(sessionId)], with the binding found *)
Definition known (header : option string) (st : state G R) : option session :=
  match header with
  | Some sessionId =>
      if truthy (VStr sessionId) then sessions st !! sessionId else None
  | None => None
  end.

(** The [if]/[else] of [app.post('/mcp')]: the identifier and the binding to
    use, or what [server.connect] threw. *)
Definition resolve (header : option string) (st : state G R)
  : result (string * session) * state G R :=
  match header, known header st with
  | Some sessionId, Some session => (Ok (sessionId, session), st)
  | _, _ =>
      let '(sessionId, g) := randomUUID h (generator st) in
      let server := objects st in
      let transport := S (objects st) in
      let binding := {| transport := transport; server := server |} in
      let '(thrown, r) := connect h binding (library st) in
      let st := {| generator := g; library := r; sessions := sessions st;
                   callbacks := <[transport := (sessionId, binding)]> (callbacks st);
                   objects := S (S (objects st)) |} in
      match thrown with
      | Some e => (Throw e, st)
      | None =>
          (Ok (sessionId, binding),
           {| generator := generator st; library := library st;
              sessions := <[sessionId := binding]> (sessions st);
              callbacks := callbacks st; objects := objects st |})
      end
  end.

(** [onsessioninitialized(id)] of a transport: [sessions.set] with what
    the closure captured; the library passes the identifier the
    transport's [sessionIdGenerator] returns, the captured one. *)
Definition onsessioninitialized (transport : nat) (st : state G R)
  : gmap string session :=
  match callbacks st !! transport with
  | Some (id, binding) => <[id := binding]> (sessions st)
  | None => sessions st
  end.

Definition post_mcp (header : option string) (st : state G R)
  : reply * state G R :=
  match resolve header st with
  | (Throw error, st) => (InternalError None (message error), st)
  | (Ok (sessionId, binding), st) =>
      (* res.setHeader('Mcp-Session-Id', sessionId) *)
      let '(hd, r) := handleRequest h (transport binding) (library st) in
      let st := {| generator := generator st; library := r;
                   sessions := if initialized hd
                               then onsessioninitialized (transport binding) st
                               else sessions st;
                   callbacks := callbacks st; objects := objects st |} in
      match failure hd with
      | Some error => (InternalError (Some sessionId) (message error), st)
      | None => (Handled sessionId binding, st)
      end
  end.

Definition delete_mcp (header : option string) (st : state G R)
  : (Z * value) * state G R :=
  match header, known header st with
  | Some sessionId, Some _ =>
      ((200%Z, obj [("success", VBool true)]),
       {| generator := generator st; library := library st;
          sessions := delete sessionId (sessions st);
          callbacks := callbacks st; objects := objects st |})
  | _, _ => ((404%Z, obj [("error", VStr "Session not found")]), st)
  end.

(** Requests arrive one after the other. *)
Inductive mcp_request :=
| POST (header : option string)
| DELETE (header : option string).

Definition serve (st : state G R) (req : mcp_request) : state G R :=
  match req with
  | POST header => snd (post_mcp header st)
  | DELETE header => snd (delete_mcp header st)
  end.

Definition reachable (g : G) (st : state G R) : Prop :=
  ∃ r reqs, st = foldl serve (initial g r) reqs.

(** The generator after [n] draws from [g], and the identifier it hands
    out next. *)
Definition drawn (g : G) (n : nat) : G :=
  Nat.iter n (λ g, snd (randomUUID h g)) g.

Definition uuid (g : G) (n : nat) : string :=
  fst (randomUUID h (drawn g n)).

(** What [randomUUID] promises: identifiers are not empty and never come
    twice. *)
Definition unique_ids (g : G) : Prop :=
  (∀ i, uuid g i ≠ "") ∧ (∀ i j, uuid g i = uuid g j → i = j).
End Http.

(** ** Arguments as objects in a store

    [sanitizeArgs] once more, over objects that have an identity: a value
    is a primitive or a reference into a [store] of objects and arrays, and
    [{ ...args }] allocates.  This is the embedding in which writing to the
    caller's object can be told from writing to a copy.  The conversions
    [>] and the template apply to [length] only read; they are given the
    tree that [read] finds behind the value, [fuel] levels deep. *)
Module Store.
Inductive hval :=
| Undefined
| Null
| Bool (b : bool)
| Num (n : number)
| Str (s : string)
| Ref (l : nat).

Inductive cell :=
| Object (fields : gmap string hval)
| Array (elems : list hval).

Abbreviation store := (gmap nat cell).
Local Abbreviation ToBoolean := truthy.

Fixpoint read (fuel : nat) (σ : store) (v : hval) : value :=
  match v with
  | Undefined => VUndefined
  | Null => VNull
  | Bool b => VBool b
  | Num n => VNum n
  | Str s => VStr s
  | Ref l =>
      match fuel with
      | 0 => VUndefined
      | S fuel =>
          match σ !! l with
          | Some (Object fields) => VObj (read fuel σ <$> fields)
          | Some (Array elems) => VArr (read fuel σ <$> elems)
          | None => VUndefined
          end
      end
  end.

Definition truthy (v : hval) : bool :=
  match v with
  | Ref _ => true
  | _ => ToBoolean (read 0 ∅ v)
  end.

(** [v.length] for a truthy [v] *)
Definition length_of (σ : store) (v : hval) : hval :=
  match v with
  | Str s => Num (number_of_nat (units s))
  | Ref l =>
      match σ !! l with
      | Some (Array elems) => Num (number_of_nat (length elems))
      | Some (Object fields) => default Undefined (fields !! "length")
      | None => Undefined
      end
  | _ => Undefined
  end.

(** The own enumerable properties [{ ...v }] copies, for a truthy [v] *)
Definition spread (σ : store) (v : hval) : gmap string hval :=
  match v with
  | Ref l =>
      match σ !! l with
      | Some (Object fields) => fields
      | Some (Array elems) => indexed elems
      | None => ∅
      end
  | Str s => indexed (Str <$> code_units s)
  | _ => ∅
  end.

Section Sanitize.
Context {U : Type} (rt : runtime U).

Definition sanitizeArgs (fuel : nat) (args : hval) (σ : store)
  : result hval * store :=
  if negb (truthy args) then (Ok args, σ) else
  let l := fresh (dom σ) in
  let sanitized := spread σ args in
  let content := default Undefined (sanitized !! "content") in
  let hidden : result (gmap string hval) :=
    if truthy content then
      let len := read fuel σ (length_of σ content) in
      long ← greater_than rt len 200;
      if (long : bool) then
        text ← template rt [Lit "["; Sub len; Lit " chars]"];
        Ok (<["content" := Str text]> sanitized)
      else Ok sanitized
    else Ok sanitized in
  match hidden with
  | Throw e => (Throw e, <[l := Object sanitized]> σ)
  | Ok sanitized =>
      let sanitized :=
        if truthy (default Undefined (sanitized !! "token"))
        then <["token" := Str "[REDACTED]"]> sanitized else sanitized in
      let sanitized :=
        if truthy (default Undefined (sanitized !! "password"))
        then <["password" := Str "[REDACTED]"]> sanitized else sanitized in
      (Ok (Ref l), <[l := Object sanitized]> σ)
  end.
End Sanitize.

(** A store is closed when every reference in it leads somewhere. *)
Definition valid (σ : store) (v : hval) : Prop :=
  match v with Ref l => l ∈ dom σ | _ => True end.

Definition closed (σ : store) : Prop :=
  ∀ l c, σ !! l = Some c →
    match c with
    | Object fields => map_Forall (λ _, valid σ) fields
    | Array elems => Forall (valid σ) elems
    end.
End Store.

(** ** A scripted host, for running the definitions

    Upstream answers are read off a script, the clock stands still, texts
    are schematic.  The theorems below hold for every runtime; this one
    serves to evaluate the program on concrete calls. *)
Definition scripted_fault_message (f : fault) : string :=
  match f with
  | ReadOfNullish base prop =>
      "Cannot read properties of " +:+
      (match base with VNull => "null" | _ => "undefined" end) +:+
      " (reading '" +:+ prop +:+ "')"
  | NotAFunction callee => callee +:+ " is not a function"
  | NotPrimitive => "Cannot convert object to primitive value"
  | BadJSON => "Unexpected end of JSON input"
  end.

Definition scripted (token : option string) : runtime (list fetch_result) := {|
  fetch := λ _ script,
    match script with
    | r :: script => (r, script)
    | [] => (Rejected (TypeError "fetch failed"), [])
    end;
  Date_now := λ script, (0%Z, script);
  toISOString := λ _, "1970-01-01T00:00:00.000Z";
  env_GITHUB_TOKEN := token;
  JSON_text := λ _ v,
    match v with
    | VNull => "null"
    | VBool b => if b then "true" else "false"
    | VStr s => "<string " +:+ s +:+ ">"
    | VArr _ => "<array>"
    | _ => "<object>"
    end;
  Number_toString := λ _, "<number>";
  StringToNumber := λ _, None;
  fault_message := scripted_fault_message;
  Buffer_to_base64 := λ _, Throw (TypeError "<buffer>");
  Buffer_from_base64 := λ _, Throw (TypeError "<buffer>");
  URLSearchParams_toString := λ entries,
    join "&" ((λ kv, fst kv +:+ "=" +:+ snd kv) <$> entries)
|}.

Definition start (script : list fetch_result) : world (list fetch_result) :=
  {| ext := script; sent := []; console := [] |}.

(** Identifiers counted up, a library that never throws and initializes
    each session at once. *)
Definition counting : host nat () := {|
  randomUUID := λ n, ("session-" +:+ pretty n, S n);
  connect := λ _ r, (None, r);
  handleRequest := λ _ r, ({| initialized := true; failure := None |}, r)
|}.

(** ** Notions the statements use

    Names for parts of the definitions above and for what the
    specification talks about. *)

(** *** The stages of [sanitizeArgs] *)

(** The two credential fields are treated alike. *)
Definition credential (k : string) : Prop := k = "token" ∨ k = "password".

(** One of the last two statements of [sanitizeArgs]. *)
Definition redact (k : string) (o : object) : object :=
  if truthy (default VUndefined (o !! k)) then <[k := VStr "[REDACTED]"]> o else o.

Section Stages.
Context {U : Type} (rt : runtime U).

(** The first statement of [sanitizeArgs], on the copy. *)
Definition hide_content (o : object) : result object :=
  let content := default VUndefined (o !! "content") in
  if truthy content then
    len ← get rt content "length";
    long ← greater_than rt len 200;
    if (long : bool) then
      text ← template rt [Lit "["; Sub len; Lit " chars]"];
      Ok (<["content" := VStr text]> o)
    else Ok o
  else Ok o.
End Stages.

(** *** The call-start record

    The six lines [logToolCall] writes. *)
Definition call_start_record (toolName timestamp session arguments : string)
  : list string :=
  [newline +:+ String_repeat "═" 70;
   "📥 TOOL CALL: " +:+ toolName;
   String_repeat "─" 70;
   "⏰ Time: " +:+ timestamp;
   "🔑 Session: " +:+ session;
   "📝 Arguments: " +:+ arguments].

(** *** Outcomes and their envelope *)
Section Outcome.
Context {U : Type} (rt : runtime U).

(** What the [try] block of the call handler comes to, given what the
    operation came to: logging a result of [undefined] fails. *)
Definition attempt (r : result value) : result value :=
  match r with
  | Ok VUndefined =>
      Throw (TypeError (fault_message rt (ReadOfNullish VUndefined "substring")))
  | _ => r
  end.

(** The envelope of an outcome, as the specification words it. *)
Definition envelope (outcome : result value) : value :=
  match outcome with
  | Ok payload =>
      obj [("content", VArr [obj [("type", VStr "text");
                                  ("text", VStr (JSON_text rt 2 payload))]])]
  | Throw e =>
      obj [("content", VArr [obj [("type", VStr "text");
                                  ("text", VStr ("Error: " +:+ message e))]]);
           ("isError", VBool true)]
  end.
End Outcome.

(** Arguments whose [content] has a [length] that cannot be brought to a
    primitive: the object that [JSON.parse] makes of
    [{"content": {"length": {"toString": 1}}}]. *)
Definition opaque_length : value :=
  obj [("content", obj [("length", obj [("toString", num 1)])])].

(** The console only grows. *)
Definition grows {U} (w w' : world U) : Prop :=
  ∃ rest, console w' = console w ++ rest.

Definition logs {U A} (m : M U A) : Prop := ∀ w, grows w (snd (m w)).

(** *** Consistency of the session table *)
(** What holds of the session table after any sequence of requests, [n]
    identifiers having been drawn. *)
Record consistent {G R} (h : host G R) (g : G) (n : nat) (st : state G R) : Prop := {
  drawn_so_far : generator st = drawn h g n;
  keys_issued : ∀ id s, sessions st !! id = Some s → ∃ i, i < n ∧ id = uuid h g i;
  keys_captured : ∀ id s, sessions st !! id = Some s →
                          callbacks st !! transport s = Some (id, s);
  callbacks_allocated : ∀ t c, callbacks st !! t = Some c → t < objects st;
  bindings_allocated : ∀ id s, sessions st !! id = Some s →
                               transport s < objects st ∧ server s < objects st
}.

(** *** The store *)

(** The fields [sanitizeArgs] never writes. *)
Definition others (k : string) : Prop :=
  k ≠ "content" ∧ k ≠ "token" ∧ k ≠ "password".

(** [v] is read in full within [n] levels. *)
Fixpoint bounded (n : nat) (σ : Store.store) (v : Store.hval) : Prop :=
  match v with
  | Store.Ref l =>
      match n with
      | 0 => False
      | S n =>
          match σ !! l with
          | Some (Store.Object fields) => map_Forall (λ _, bounded n σ) fields
          | Some (Store.Array elems) => Forall (bounded n σ) elems
          | None => False
          end
      end
  | _ => True
  end.

(** The two stages of [Store.sanitizeArgs], named. *)
Definition hide_in_store {U} (rt : runtime U) (fuel : nat) (σ : Store.store)
    (o : gmap string Store.hval) : result (gmap string Store.hval) :=
  let content := default Store.Undefined (o !! "content") in
  if Store.truthy content then
    let len := Store.read fuel σ (Store.length_of σ content) in
    long ← greater_than rt len 200;
    if (long : bool) then
      text ← template rt [Lit "["; Sub len; Lit " chars]"];
      Ok (<["content" := Store.Str text]> o)
    else Ok o
  else Ok o.

Definition redact_in_store (k : string) (o : gmap string Store.hval)
  : gmap string Store.hval :=
  if Store.truthy (default Store.Undefined (o !! k))
  then <[k := Store.Str "[REDACTED]"]> o else o.

(** An upstream answer for the examples. *)
Definition octocat : response :=
  {| status := 200; statusText := "OK";
     json := Some (obj [("login", VStr "octocat")]) |}.

(** ** The tool list and the informational routes

    What the handler registered for [ListToolsRequestSchema] returns, and
    the two [GET] routes.  The three helpers below only name the shapes the
    object literal of the source repeats. *)
Definition property (type description : string) : value :=
  obj [("type", VStr type); ("description", VStr description)].

Definition inputSchema (properties : list (string * value)) (required : list string)
  : value :=
  obj [("type", VStr "object"); ("properties", obj properties);
       ("required", VArr (VStr <$> required))].

Definition descriptor (name description : string) (inputSchema : value) : value :=
  obj [("name", VStr name); ("description", VStr description);
       ("inputSchema", inputSchema)].

Definition tools : list value :=
  [descriptor "github_verify_token"
     "Verify GitHub access token and get user info"
     (inputSchema [] []);
   descriptor "github_get_user"
     "Get authenticated GitHub user info"
     (inputSchema [] []);
   descriptor "github_list_repositories"
     "List repositories for the authenticated user"
     (inputSchema
        [("sort",
          property "string"
            "Sort by: created, updated, pushed, full_name (default: updated)");
         ("perPage", property "number" "Results per page (default: 30)")]
        []);
   descriptor "github_get_repository"
     "Get repository details"
     (inputSchema
        [("owner", property "string" "Repository owner");
         ("repo", property "string" "Repository name")]
        ["owner"; "repo"]);
   descriptor "github_create_repository"
     "Create a new GitHub repository"
     (inputSchema
        [("name", property "string" "Repository name");
         ("description", property "string" "Repository description");
         ("isPrivate", property "boolean" "Make repository private (default: false)");
         ("autoInit", property "boolean" "Initialize with README (default: true)")]
        ["name"]);
   descriptor "github_delete_repository"
     "Delete a GitHub repository"
     (inputSchema
        [("owner", property "string" "Repository owner");
         ("repo", property "string" "Repository name")]
        ["owner"; "repo"]);
   descriptor "github_get_file_contents"
     "Get contents of a file from a repository"
     (inputSchema
        [("owner", property "string" "Repository owner");
         ("repo", property "string" "Repository name");
         ("path", property "string" "File path");
         ("ref", property "string" "Branch or commit (default: main)")]
        ["owner"; "repo"; "path"]);
   descriptor "github_create_or_update_file"
     "Create or update a file in a repository"
     (inputSchema
        [("owner", property "string" "Repository owner");
         ("repo", property "string" "Repository name");
         ("path", property "string" "File path");
         ("content", property "string" "File content");
         ("message", property "string" "Commit message");
         ("branch", property "string" "Branch name (default: main)");
         ("sha", property "string" "SHA of file to update (required for updates)")]
        ["owner"; "repo"; "path"; "content"; "message"]);
   descriptor "github_delete_file"
     "Delete a file from a repository"
     (inputSchema
        [("owner", property "string" "Repository owner");
         ("repo", property "string" "Repository name");
         ("path", property "string" "File path");
         ("message", property "string" "Commit message");
         ("sha", property "string" "SHA of file to delete");
         ("branch", property "string" "Branch name (default: main)")]
        ["owner"; "repo"; "path"; "message"; "sha"]);
   descriptor "github_push_files"
     "Push multiple files in a single commit using Git Data API"
     (inputSchema
        [("owner", property "string" "Repository owner");
         ("repo", property "string" "Repository name");
         ("files", obj
           [("type", VStr "array");
            ("description", VStr "Array of files to push");
            ("items", obj
              [("type", VStr "object");
               ("properties", obj
                 [("path", property "string" "File path");
                  ("content", property "string" "File content")]);
               ("required", VArr [VStr "path"; VStr "content"])])]);
         ("message", property "string" "Commit message");
         ("branch", property "string" "Branch name (default: main)")]
        ["owner"; "repo"; "files"; "message"]);
   descriptor "github_list_branches"
     "List branches in a repository"
     (inputSchema
        [("owner", property "string" "Repository owner");
         ("repo", property "string" "Repository name")]
        ["owner"; "repo"]);
   descriptor "github_create_branch"
     "Create a new branch"
     (inputSchema
        [("owner", property "string" "Repository owner");
         ("repo", property "string" "Repository name");
         ("branchName", property "string" "New branch name");
         ("fromBranch", property "string" "Source branch (default: main)")]
        ["owner"; "repo"; "branchName"]);
   descriptor "github_delete_branch"
     "Delete a branch"
     (inputSchema
        [("owner", property "string" "Repository owner");
         ("repo", property "string" "Repository name");
         ("branch", property "string" "Branch name to delete")]
        ["owner"; "repo"; "branch"]);
   descriptor "github_list_commits"
     "List commits in a repository"
     (inputSchema
        [("owner", property "string" "Repository owner");
         ("repo", property "string" "Repository name");
         ("branch", property "string" "Branch name (default: main)");
         ("perPage", property "number" "Results per page (default: 30)")]
        ["owner"; "repo"]);
   descriptor "github_get_commit"
     "Get a specific commit"
     (inputSchema
        [("owner", property "string" "Repository owner");
         ("repo", property "string" "Repository name");
         ("sha", property "string" "Commit SHA")]
        ["owner"; "repo"; "sha"]);
   descriptor "github_create_pull_request"
     "Create a pull request"
     (inputSchema
        [("owner", property "string" "Repository owner");
         ("repo", property "string" "Repository name");
         ("title", property "string" "PR title");
         ("head", property "string" "Source branch");
         ("base", property "string" "Target branch");
         ("body", property "string" "PR description");
         ("draft", property "boolean" "Create as draft (default: false)")]
        ["owner"; "repo"; "title"; "head"; "base"]);
   descriptor "github_list_pull_requests"
     "List pull requests"
     (inputSchema
        [("owner", property "string" "Repository owner");
         ("repo", property "string" "Repository name");
         ("state", property "string" "State: open, closed, all (default: open)");
         ("perPage", property "number" "Results per page (default: 30)")]
        ["owner"; "repo"]);
   descriptor "github_get_pull_request"
     "Get a specific pull request"
     (inputSchema
        [("owner", property "string" "Repository owner");
         ("repo", property "string" "Repository name");
         ("pullNumber", property "number" "Pull request number")]
        ["owner"; "repo"; "pullNumber"]);
   descriptor "github_merge_pull_request"
     "Merge a pull request"
     (inputSchema
        [("owner", property "string" "Repository owner");
         ("repo", property "string" "Repository name");
         ("pullNumber", property "number" "Pull request number");
         ("commitTitle", property "string" "Merge commit title");
         ("commitMessage", property "string" "Merge commit message");
         ("mergeMethod",
         property "string" "Merge method: merge, squash, rebase (default: merge)")]
        ["owner"; "repo"; "pullNumber"]);
   descriptor "github_create_issue"
     "Create an issue"
     (inputSchema
        [("owner", property "string" "Repository owner");
         ("repo", property "string" "Repository name");
         ("title", property "string" "Issue title");
         ("body", property "string" "Issue body");
         ("labels", obj
           [("type", VStr "array");
            ("items", obj [("type", VStr "string")]);
            ("description", VStr "Labels")]);
         ("assignees", obj
           [("type", VStr "array");
            ("items", obj [("type", VStr "string")]);
            ("description", VStr "Assignees")])]
        ["owner"; "repo"; "title"]);
   descriptor "github_list_issues"
     "List issues in a repository"
     (inputSchema
        [("owner", property "string" "Repository owner");
         ("repo", property "string" "Repository name");
         ("state", property "string" "State: open, closed, all (default: open)");
         ("perPage", property "number" "Results per page (default: 30)")]
        ["owner"; "repo"]);
   descriptor "github_add_comment"
     "Add a comment to an issue or PR"
     (inputSchema
        [("owner", property "string" "Repository owner");
         ("repo", property "string" "Repository name");
         ("issueNumber", property "number" "Issue or PR number");
         ("body", property "string" "Comment body")]
        ["owner"; "repo"; "issueNumber"; "body"]);
   descriptor "github_get_tree"
     "Get repository tree (directory structure)"
     (inputSchema
        [("owner", property "string" "Repository owner");
         ("repo", property "string" "Repository name");
         ("sha", property "string" "Tree SHA or branch (default: main)");
         ("recursive", property "boolean" "Get tree recursively (default: true)")]
        ["owner"; "repo"]);
   descriptor "github_list_contents"
     "List directory contents"
     (inputSchema
        [("owner", property "string" "Repository owner");
         ("repo", property "string" "Repository name");
         ("path", property "string" "Directory path (default: root)");
         ("ref", property "string" "Branch or commit (default: main)")]
        ["owner"; "repo"]);
   descriptor "github_search_repositories"
     "Search GitHub repositories"
     (inputSchema
        [("query", property "string" "Search query");
         ("sort", property "string" "Sort by: stars, forks, updated (default: stars)");
         ("order", property "string" "Order: asc, desc (default: desc)");
         ("perPage", property "number" "Results per page (default: 10)")]
        ["query"]);
   descriptor "github_search_code"
     "Search code across repositories"
     (inputSchema
        [("query", property "string" "Search query");
         ("perPage", property "number" "Results per page (default: 30)")]
        ["query"])].

Definition listTools : value := obj [("tools", VArr tools)].

Section Routes.
Context {U : Type} (rt : runtime U).

(** [app.get('/health')]: the body passed to [res.json]. *)
Definition health : M U value :=
  t ← now rt;
  mret (obj [("status", VStr "ok");
             ("timestamp", VStr (toISOString rt t));
             ("tokenConfigured", VBool (truthy (VStr (getGithubToken rt))))]).

(** [app.get('/mcp')]: the body passed to [res.json]. *)
Definition mcp_info : value :=
  obj [("name", VStr "github-mcp");
       ("version", VStr "1.0.0");
       ("description", VStr "MCP server for GitHub operations");
       ("transport", VStr "streamable-http");
       ("endpoint", VStr "/mcp");
       ("tokenConfigured", VBool (truthy (VStr (getGithubToken rt))));
       ("tools", VArr [
          VStr "github_verify_token";
          VStr "github_get_user";
          VStr "github_list_repositories";
          VStr "github_get_repository";
          VStr "github_create_repository";
          VStr "github_delete_repository";
          VStr "github_get_file_contents";
          VStr "github_create_or_update_file";
          VStr "github_delete_file";
          VStr "github_push_files";
          VStr "github_list_branches";
          VStr "github_create_branch";
          VStr "github_delete_branch";
          VStr "github_list_commits";
          VStr "github_get_commit";
          VStr "github_create_pull_request";
          VStr "github_list_pull_requests";
          VStr "github_get_pull_request";
          VStr "github_merge_pull_request";
          VStr "github_create_issue";
          VStr "github_list_issues";
          VStr "github_add_comment";
          VStr "github_get_tree";
          VStr "github_list_contents";
          VStr "github_search_repositories";
          VStr "github_search_code"])].
End Routes.

(** *** The tool list, read *)

(** The [name] of every entry of a [tools] array, in order. *)
Definition names_of (listing : value) : list string :=
  match listing with
  | VObj o =>
      match o !! "tools" with
      | Some (VArr l) =>
          omap (λ d, match d with
                     | VObj d =>
                         match d !! "name" with Some (VStr s) => Some s | _ => None end
                     | VStr s => Some s
                     | _ => None
                     end) l
      | _ => []
      end
  | _ => []
  end.

(** The entry of the tool list with a given [name]. *)
Definition named (name : string) (d : value) : bool :=
  match d with
  | VObj d =>
      match d !! "name" with Some (VStr s) => bool_decide (s = name) | _ => false end
  | _ => false
  end.

Definition descriptor_of (name : string) : option value :=
  find (named name) tools.

Definition field (k : string) (v : option value) : option value :=
  match v with Some (VObj o) => o !! k | _ => None end.

(** [k] is a key of [inputSchema.properties] of the tool [name]. *)
Definition declares (name k : string) : bool :=
  bool_decide (is_Some (field k (field "properties"
                 (field "inputSchema" (descriptor_of name))))).

(** [inputSchema.required] of the tool [name]. *)
Definition required_by (name : string) : list string :=
  match field "required" (field "inputSchema" (descriptor_of name)) with
  | Some (VArr l) => omap (λ v, match v with VStr s => Some s | _ => None end) l
  | _ => []
  end.

(** *** Requests sent *)

(** Every request a computation sends satisfies [P]. *)
Definition sends {U A} (P : http_request → Prop) (m : M U A) : Prop :=
  ∀ w, ∃ reqs, sent (snd (m w)) = sent w ++ reqs ∧ Forall P reqs.

(** A request as [githubRequest] makes them: to the upstream API, with
    the credential of the environment and the fixed headers. *)
Definition to_upstream {U} (rt : runtime U) (req : http_request) : Prop :=
  (∃ endpoint, url req = GITHUB_API_URL +:+ endpoint) ∧
  headers req = [("Authorization", "Bearer " +:+ getGithubToken rt);
                 ("Accept", "application/vnd.github.v3+json");
                 ("Content-Type", "application/json");
                 ("X-GitHub-Api-Version", "2022-11-28")] ∧
  getGithubToken rt ≠ "".

(** The methods of the requests an operation sends when every step
    succeeds, in order. *)
Definition plan (t : tool) (args : value) : list string :=
  match t with
  | github_create_repository | github_create_pull_request
  | github_create_issue | github_add_comment => ["POST"]
  | github_create_or_update_file | github_merge_pull_request => ["PUT"]
  | github_delete_repository | github_delete_file | github_delete_branch => ["DELETE"]
  | github_create_branch => ["GET"; "POST"]
  | github_push_files =>
      let files := match args with
                   | VObj o => match o !! "files" with Some (VArr l) => l | _ => [] end
                   | _ => []
                   end in
      ["GET"; "GET"] ++ replicate (length files) "POST" ++ ["POST"; "POST"; "PATCH"]
  | _ => ["GET"]
  end.

(** The requests of a computation follow a plan: their methods are a
    prefix of it, and all of it when the computation returns. *)
Definition follows {U A} (p : list string) (m : M U A) : Prop :=
  ∀ w, ∃ reqs, sent (snd (m w)) = sent w ++ reqs ∧
               method <$> reqs `prefix_of` p ∧
               (∀ a, fst (m w) = Ok a → method <$> reqs = p).

(** A computation that throws and leaves the world as it found it. *)
Definition refused {U A} (m : M U A) : Prop := ∀ w, ∃ e, m w = (Throw e, w).

(** *** Defaults *)

(** The parameters the operations give a default value, by tool and
    argument, as the function signatures have them. *)
Definition defaults : list (string * string * value) :=
  [("github_list_repositories", "sort", VStr "updated");
   ("github_list_repositories", "perPage", num 30);
   ("github_create_repository", "description", VStr "");
   ("github_create_repository", "isPrivate", VBool false);
   ("github_create_repository", "autoInit", VBool true);
   ("github_get_file_contents", "ref", VStr "main");
   ("github_create_or_update_file", "branch", VStr "main");
   ("github_create_or_update_file", "sha", VNull);
   ("github_delete_file", "branch", VStr "main");
   ("github_push_files", "branch", VStr "main");
   ("github_create_branch", "fromBranch", VStr "main");
   ("github_list_commits", "branch", VStr "main");
   ("github_list_commits", "perPage", num 30);
   ("github_create_pull_request", "body", VStr "");
   ("github_create_pull_request", "draft", VBool false);
   ("github_list_pull_requests", "state", VStr "open");
   ("github_list_pull_requests", "perPage", num 30);
   ("github_merge_pull_request", "commitTitle", VStr "");
   ("github_merge_pull_request", "commitMessage", VStr "");
   ("github_merge_pull_request", "mergeMethod", VStr "merge");
   ("github_create_issue", "body", VStr "");
   ("github_create_issue", "labels", VArr []);
   ("github_create_issue", "assignees", VArr []);
   ("github_list_issues", "state", VStr "open");
   ("github_list_issues", "perPage", num 30);
   ("github_get_tree", "sha", VStr "main");
   ("github_get_tree", "recursive", VBool true);
   ("github_list_contents", "path", VStr "");
   ("github_list_contents", "ref", VStr "main");
   ("github_search_repositories", "sort", VStr "stars");
   ("github_search_repositories", "order", VStr "desc");
   ("github_search_repositories", "perPage", num 10);
   ("github_search_code", "perPage", num 30)].

(** The request [githubPushFiles] makes for a file, if it can make one. *)
Definition upload {U} (rt : runtime U) (owner repo file : value)
  : option http_request :=
  match blob_request rt owner repo file with
  | Ok req => Some req
  | Throw _ => None
  end.

(** * Properties *)

(** ** Strings and numbers *)
Lemma append_empty_r (s : string) : s +:+ "" = s.
Proof.
  induction s as [|c s IH]; [done|].
  change (String c (s +:+ "") = String c s). by rewrite IH.
Qed.

Section CoercionFacts.
Context {U : Type} (rt : runtime U).

Lemma number_lt_of_Z (a b : Z) :
  number_lt (number_of_Z a) (number_of_Z b) = bool_decide (a < b)%Z.
Proof.
  unfold number_lt, number_of_Z. apply bool_decide_ext.
  unfold Qclt. simpl. rewrite !Qred_correct. rewrite <- Zlt_Qlt. done.
Qed.

Lemma greater_than_length (n : nat) (k : Z) :
  greater_than rt (VNum (number_of_nat n)) k = Ok (bool_decide (k < Z.of_nat n)%Z).
Proof.
  unfold greater_than, number_of_nat. cbn -[number_lt number_of_Z].
  by rewrite number_lt_of_Z.
Qed.

Lemma this_number_of_Z (z : Z) : this (Q2Qc (inject_Z z)) = inject_Z z.
Proof.
  simpl. unfold Qred, inject_Z.
  pose proof (Z.ggcd_gcd z 1) as Hg.
  pose proof (Z.ggcd_correct_divisors z 1) as Hd.
  destruct (Z.ggcd z 1) as [g [aa bb]]. simpl in *.
  rewrite Z.gcd_1_r in Hg. subst g. destruct Hd as [-> Hb].
  f_equal; [lia|]. assert (bb = 1%Z) as -> by lia. done.
Qed.

Lemma number_to_string_length (n : nat) :
  (Z.of_nat n < 2 ^ 53)%Z →
  number_to_string rt (number_of_nat n) = pretty (Z.of_nat n).
Proof.
  intros Hn. unfold number_to_string, number_of_nat, number_of_Z.
  rewrite this_number_of_Z. simpl Qden. simpl Qnum.
  rewrite bool_decide_true; [done|]. split; [done|lia].
Qed.
End CoercionFacts.

(** ** Sanitizing the logged arguments *)
Section SanitizeFacts.
Context {U : Type} (rt : runtime U).

Lemma sanitizeArgs_object (o : object) :
  sanitizeArgs rt (VObj o) =
  o1 ← hide_content rt o; Ok (VObj (redact "password" (redact "token" o1))).
Proof. reflexivity. Qed.

Lemma sanitizeArgs_absent : sanitizeArgs rt VUndefined = Ok VUndefined.
Proof. reflexivity. Qed.

Lemma redact_lookup_ne k j (o : object) : k ≠ j → redact k o !! j = o !! j.
Proof. intros. unfold redact. case_match; [by rewrite lookup_insert_ne|done]. Qed.

Lemma redact_lookup_truthy k v (o : object) :
  o !! k = Some v → truthy v = true → redact k o !! k = Some (VStr "[REDACTED]").
Proof. intros Hk Hv. unfold redact. rewrite Hk. simpl. rewrite Hv. apply lookup_insert_eq. Qed.

Lemma redact_lookup_falsy k (o : object) :
  truthy (default VUndefined (o !! k)) = false → redact k o = o.
Proof. intros Hv. unfold redact. by rewrite Hv. Qed.

Lemma hide_content_cases (o o1 : object) :
  hide_content rt o = Ok o1 →
  o1 = o ∨ ∃ text, o1 = <["content" := VStr text]> o.
Proof.
  unfold hide_content. intros H.
  destruct (truthy _); [|left; by injection H as <-].
  destruct (get rt _ _); [|done]. cbn [mbind result_bind] in H.
  destruct (greater_than rt _ _) as [[]|]; [| left; by injection H as <- |done].
  cbn [mbind result_bind] in H.
  destruct (template rt _); [|done]. cbn [mbind result_bind] in H.
  injection H as <-. eauto.
Qed.

Lemma hide_content_lookup_ne (o o1 : object) j :
  hide_content rt o = Ok o1 → j ≠ "content" → o1 !! j = o !! j.
Proof.
  intros [-> | [text ->]]%hide_content_cases Hj; [done|].
  by rewrite lookup_insert_ne.
Qed.

Lemma hide_content_insert (o : object) k v :
  k ≠ "content" →
  hide_content rt (<[k := v]> o) = o1 ← hide_content rt o; Ok (<[k := v]> o1).
Proof.
  intros Hk. unfold hide_content. rewrite lookup_insert_ne by done.
  destruct (truthy _); [|done].
  destruct (get rt _ _); [|done]. cbn [mbind result_bind].
  destruct (greater_than rt _ _) as [[]|]; [|done..]. cbn [mbind result_bind].
  destruct (template rt _); [|done]. cbn [mbind result_bind].
  by rewrite insert_insert_ne.
Qed.

Lemma redact_insert_truthy k v (o : object) :
  truthy v = true → redact k (<[k := v]> o) = <[k := VStr "[REDACTED]"]> o.
Proof.
  intros Hv. unfold redact. rewrite lookup_insert_eq. simpl. rewrite Hv.
  apply insert_insert_eq.
Qed.

Lemma redact_insert_ne k j v (o : object) :
  k ≠ j → redact k (<[j := v]> o) = <[j := v]> (redact k o).
Proof.
  intros Hv. unfold redact. rewrite lookup_insert_ne by done.
  destruct (truthy _); [|done]. by apply insert_insert_ne.
Qed.

Lemma hide_content_string (o : object) (s : string) :
  o !! "content" = Some (VStr s) →
  hide_content rt o =
    Ok (if bool_decide (200 < units s)%nat
        then <["content" := VStr ("[" +:+ number_to_string rt (number_of_nat (units s))
                                  +:+ " chars]")]> o
        else o).
Proof.
  intros Hs. unfold hide_content. rewrite Hs.
  change (default VUndefined (Some (VStr s))) with (VStr s).
  destruct (truthy (VStr s)) eqn:Ht.
  - cbn [get mbind result_bind]. rewrite bool_decide_true; [|done].
    rewrite greater_than_length. cbn [mbind result_bind].
    rewrite (bool_decide_ext (200 < Z.of_nat (units s))%Z
               (200 < units s)%nat); [|lia].
    case_bool_decide; reflexivity.
  - destruct s; [|done]. reflexivity.
Qed.

(** With a truthy credential, what is logged does not depend on it. *)
Lemma sanitizeArgs_credential_blind (o : object) k v1 v2 :
  credential k → truthy v1 = true → truthy v2 = true →
  sanitizeArgs rt (VObj (<[k := v1]> o)) = sanitizeArgs rt (VObj (<[k := v2]> o)).
Proof.
  intros Hk H1 H2. rewrite !sanitizeArgs_object.
  assert (k ≠ "content") as Hc by (destruct Hk as [-> | ->]; done).
  rewrite !hide_content_insert by done.
  destruct (hide_content rt o) as [o1|]; [|done]. cbn [mbind result_bind].
  destruct Hk as [-> | ->].
  - by rewrite !redact_insert_truthy.
  - by rewrite !(redact_insert_ne "token" "password"), !redact_insert_truthy.
Qed.

(** What the first statement of [sanitizeArgs] does to a [content] whose
    [length] compares greater than 200. *)
Lemma hide_content_long (o : object) (c len : value) :
  o !! "content" = Some c → truthy c = true →
  get rt c "length" = Ok len → greater_than rt len 200 = Ok true →
  hide_content rt o =
    digits ← ToString rt len;
    Ok (<["content" := VStr ("[" +:+ digits +:+ " chars]")]> o).
Proof.
  intros Hc Ht Hlen Hgt. unfold hide_content. rewrite Hc.
  change (default VUndefined (Some c)) with c. rewrite Ht, Hlen.
  cbn [mbind result_bind]. rewrite Hgt. cbn [mbind result_bind template].
  destruct (ToString rt len) as [digits|]; reflexivity.
Qed.

Lemma hide_content_short (o : object) (c : value) :
  o !! "content" = Some c →
  truthy c = false ∨
    (∃ len, get rt c "length" = Ok len ∧ greater_than rt len 200 = Ok false) →
  hide_content rt o = Ok o.
Proof.
  intros Hc H. unfold hide_content. rewrite Hc.
  change (default VUndefined (Some c)) with c.
  destruct H as [->|(len & Hlen & Hgt)]; [done|].
  destruct (truthy c); [|done]. rewrite Hlen. cbn [mbind result_bind].
  by rewrite Hgt.
Qed.

Lemma hide_content_array (o : object) (l : list value) :
  o !! "content" = Some (VArr l) →
  hide_content rt o =
    Ok (if bool_decide (200 < length l)%nat
        then <["content" := VStr ("[" +:+ number_to_string rt (number_of_nat (length l))
                                  +:+ " chars]")]> o
        else o).
Proof.
  intros Hl. unfold hide_content. rewrite Hl.
  change (default VUndefined (Some (VArr l))) with (VArr l).
  cbn [truthy get mbind result_bind]. rewrite bool_decide_true; [|done].
  rewrite greater_than_length. cbn [mbind result_bind].
  rewrite (bool_decide_ext (200 < Z.of_nat (length l))%Z (200 < length l)%nat); [|lia].
  case_bool_decide; reflexivity.
Qed.

(** C4, amended.  Whenever [sanitizeArgs] returns on an argument mapping,
    the record has ["[REDACTED]"] for every truthy [token] and [password]
    and leaves a falsy or absent one as it is.  A [content] field whose
    [length] compares greater than 200 is replaced by the length indicator,
    whatever kind of value it is, and any other [content] is kept: a string
    is replaced when it has more than 200 code units, an array when it has
    more than 200 elements.  Every other field is as in the arguments, and
    two mappings that differ only in a truthy [token] (or [password]) give
    the same record. *)
Theorem sanitizeArgs_redacts (o : object) (r : value) :
  sanitizeArgs rt (VObj o) = Ok r →
  ∃ o' : object, r = VObj o' ∧
    (∀ k v, credential k → o !! k = Some v → truthy v = true →
            o' !! k = Some (VStr "[REDACTED]")) ∧
    (∀ k, credential k → truthy (default VUndefined (o !! k)) = false →
          o' !! k = o !! k) ∧
    (∀ c len, o !! "content" = Some c → truthy c = true →
          get rt c "length" = Ok len → greater_than rt len 200 = Ok true →
          ∃ digits, ToString rt len = Ok digits ∧
            o' !! "content" = Some (VStr ("[" +:+ digits +:+ " chars]"))) ∧
    (∀ c, o !! "content" = Some c →
          truthy c = false ∨
            (∃ len, get rt c "length" = Ok len ∧ greater_than rt len 200 = Ok false) →
          o' !! "content" = Some c) ∧
    (∀ s, o !! "content" = Some (VStr s) → (200 < units s)%nat →
          o' !! "content" =
            Some (VStr ("[" +:+ number_to_string rt (number_of_nat (units s))
                        +:+ " chars]"))) ∧
    (∀ s, o !! "content" = Some (VStr s) → (units s ≤ 200)%nat →
          o' !! "content" = Some (VStr s)) ∧
    (∀ l, o !! "content" = Some (VArr l) → (200 < length l)%nat →
          o' !! "content" =
            Some (VStr ("[" +:+ number_to_string rt (number_of_nat (length l))
                        +:+ " chars]"))) ∧
    (∀ l, o !! "content" = Some (VArr l) → (length l ≤ 200)%nat →
          o' !! "content" = Some (VArr l)) ∧
    (∀ k, k ≠ "content" → ¬ credential k → o' !! k = o !! k) ∧
    (∀ k v1 v2, credential k → truthy v1 = true → truthy v2 = true →
       sanitizeArgs rt (VObj (<[k := v1]> o)) = sanitizeArgs rt (VObj (<[k := v2]> o))).
Proof.
  rewrite sanitizeArgs_object. intros H.
  destruct (hide_content rt o) as [o1|] eqn:Ho1; [|done].
  cbn [mbind result_bind] in H. injection H as <-.
  eexists. split; [reflexivity|].
  pose proof (hide_content_lookup_ne _ _ "token" Ho1 ltac:(done)) as Htok.
  pose proof (hide_content_lookup_ne _ _ "password" Ho1 ltac:(done)) as Hpw.
  split; [|split; [|split; [|split; [|split; [|split; [|split; [|split; [|split]]]]]]]].
  - intros k v [-> | ->] Hk Hv.
    + rewrite redact_lookup_ne by done. apply (redact_lookup_truthy _ v); [congruence|done].
    + apply (redact_lookup_truthy _ v); [|done].
      rewrite redact_lookup_ne by done. congruence.
  - intros k [-> | ->] Hv.
    + rewrite redact_lookup_ne by done. rewrite redact_lookup_falsy; congruence.
    + rewrite redact_lookup_falsy; rewrite redact_lookup_ne by done; congruence.
  - intros c len Hc Ht Hlen Hgt. rewrite !redact_lookup_ne by done.
    rewrite (hide_content_long _ _ _ Hc Ht Hlen Hgt) in Ho1.
    destruct (ToString rt len) as [digits|]; [|done].
    cbn [mbind result_bind] in Ho1. injection Ho1 as <-.
    exists digits. split; [done|]. apply lookup_insert_eq.
  - intros c Hc Hshort. rewrite !redact_lookup_ne by done.
    rewrite (hide_content_short _ _ Hc Hshort) in Ho1. by injection Ho1 as <-.
  - intros s Hs Hlen. rewrite !redact_lookup_ne by done.
    rewrite (hide_content_string _ _ Hs), bool_decide_true in Ho1 by done.
    injection Ho1 as <-. apply lookup_insert_eq.
  - intros s Hs Hlen. rewrite !redact_lookup_ne by done.
    rewrite (hide_content_string _ _ Hs), bool_decide_false in Ho1 by lia.
    by injection Ho1 as <-.
  - intros l Hl Hlen. rewrite !redact_lookup_ne by done.
    rewrite (hide_content_array _ _ Hl), bool_decide_true in Ho1 by done.
    injection Ho1 as <-. apply lookup_insert_eq.
  - intros l Hl Hlen. rewrite !redact_lookup_ne by done.
    rewrite (hide_content_array _ _ Hl), bool_decide_false in Ho1 by lia.
    by injection Ho1 as <-.
  - intros k Hc Hk. unfold credential in Hk.
    rewrite !redact_lookup_ne by naive_solver. by apply hide_content_lookup_ne.
  - apply sanitizeArgs_credential_blind.
Qed.
End SanitizeFacts.

(** ** The call handler *)
Lemma bind_run {U A B} (m : M U A) (k : A → M U B) w :
  (m ≫= k) w = match m w with
               | (Ok a, w') => k a w'
               | (Throw e, w') => (Throw e, w')
               end.
Proof. reflexivity. Qed.

Section Frames.
Context {U : Type} (rt : runtime U).

Lemma grows_refl (w : world U) : grows w w.
Proof. exists []. by rewrite app_nil_r. Qed.

Lemma grows_trans (w1 w2 w3 : world U) : grows w1 w2 → grows w2 w3 → grows w1 w3.
Proof. intros [r1 H1] [r2 H2]. exists (r1 ++ r2). by rewrite H2, H1, app_assoc. Qed.

(** Nothing the program does takes a line off the console: [logs] holds
    of the primitive computations and carries over sequencing and
    [try]/[catch], hence of every operation. *)
Lemma logs_bind {A B} (m : M U A) (k : A → M U B) :
  logs m → (∀ a, logs (k a)) → logs (m ≫= k).
Proof.
  intros Hm Hk w. rewrite bind_run. specialize (Hm w).
  destruct (m w) as [[a|e] w1]; simpl in *; [|done].
  eapply grows_trans; [done|apply Hk].
Qed.

Lemma logs_try_catch {A} (m : M U A) h :
  logs m → (∀ e, logs (h e)) → logs (try_catch m h).
Proof.
  intros Hm Hh w. unfold try_catch. specialize (Hm w).
  destruct (m w) as [[a|e] w1]; simpl in *; [done|].
  eapply grows_trans; [done|apply Hh].
Qed.

Lemma logs_ret {A} (a : A) : logs (mret a : M U A).
Proof. intros w. apply grows_refl. Qed.
Lemma logs_lift {A} (r : result A) : logs (lift r : M U A).
Proof. intros w. apply grows_refl. Qed.
Lemma logs_throw {A} e : logs (throw e : M U A).
Proof. intros w. apply grows_refl. Qed.
Lemma logs_console_log s : logs (console_log s : M U ()).
Proof. intros w. by exists [s]. Qed.
Lemma logs_now : logs (now rt).
Proof.
  intros w. unfold now. destruct (Date_now rt (ext w)).
  exists []. simpl. by rewrite app_nil_r.
Qed.
Lemma logs_send req : logs (send rt req).
Proof.
  intros w. unfold send. destruct (fetch rt req (ext w)).
  exists []. simpl. by rewrite app_nil_r.
Qed.

Create HintDb logs.
Hint Resolve logs_ret logs_lift logs_throw logs_console_log logs_now logs_send : logs.
Ltac logs := repeat first
  [ apply logs_bind; [|intros ?] | apply logs_try_catch; [|intros ?]
  | solve [auto with logs] | case_match ].

Lemma logs_githubRequest endpoint method body : logs (githubRequest rt endpoint method body).
Proof. unfold githubRequest. logs. Qed.
Hint Resolve logs_githubRequest : logs.

Lemma logs_start_all owner repo files : logs (start_all rt owner repo files).
Proof. induction files as [|file files IH]; simpl; logs. Qed.
Hint Resolve logs_start_all : logs.

Lemma logs_run t args : logs (run rt t args).
Proof.
  destruct t; unfold run;
    unfold githubVerifyToken, githubGetUser, githubListRepositories,
      githubGetRepository, githubCreateRepository, githubDeleteRepository,
      githubGetFileContents, githubCreateOrUpdateFile, githubDeleteFile,
      githubPushFiles, githubListBranches, githubCreateBranch, githubGetBranch,
      githubDeleteBranch, githubListCommits, githubGetCommit,
      githubCreatePullRequest, githubListPullRequests, githubGetPullRequest,
      githubMergePullRequest, githubCreateIssue, githubListIssues,
      githubAddComment, githubGetTree, githubListContents,
      githubSearchRepositories, githubSearchCode; logs.
Qed.

Lemma logs_dispatch name args : logs (dispatch rt name args).
Proof. unfold dispatch. destruct (case_of _ _); [apply logs_run|apply logs_throw]. Qed.
Hint Resolve logs_dispatch : logs.

Lemma logs_logToolResult name r d b : logs (logToolResult rt name r d b).
Proof. unfold logToolResult. logs. Qed.
Hint Resolve logs_logToolResult : logs.
End Frames.

Section ServerFacts.
Context {U : Type} (rt : runtime U).

(** [logToolCall] without a session argument: it reads the clock, then
    either [sanitizeArgs] throws and nothing is written, or the six lines
    of the record are, with ["unknown"] for the session. *)
Lemma logToolCall_outcome name args w :
  ∃ w', console w' = console w ∧ sent w' = sent w ∧
  match sanitizeArgs rt args with
  | Throw e => logToolCall rt name args VUndefined w = (Throw e, w')
  | Ok sanitized =>
      ∃ time arguments,
        logToolCall rt name args VUndefined w =
          (Ok (), {| ext := ext w'; sent := sent w';
                     console := console w' ++
                       call_start_record name time "unknown" arguments |})
  end.
Proof.
  unfold logToolCall. rewrite bind_run. unfold now.
  destruct (Date_now rt (ext w)) as [t u] eqn:Hnow.
  eexists {| ext := u; sent := sent w; console := console w |}.
  split; [done|]. split; [done|].
  rewrite bind_run. unfold lift at 1.
  destruct (sanitizeArgs rt args) as [sanitized|e]; [|done].
  exists (toISOString rt t).
  exists (match sanitized with VUndefined => "undefined" | _ => JSON_text rt 2 sanitized end).
  destruct sanitized; cbn -[String_repeat String.append app newline];
  unfold mbind, M_bind, console_log, lift; cbn -[String_repeat String.append app newline];
    rewrite <- !app_assoc, ?append_empty_r; reflexivity.
Qed.

Lemma logToolResult_error name (m : string) d w :
  ∃ w', logToolResult rt name (VStr m) d true w = (Ok (), w')
        ∧ sent w' = sent w ∧ grows w w'.
Proof.
  pose proof (logs_logToolResult rt name (VStr m) d true w) as Hg.
  eexists. split; [reflexivity|]. done.
Qed.

Lemma logToolResult_success name result d w :
  result ≠ VUndefined →
  ∃ w', logToolResult rt name result d false w = (Ok (), w')
        ∧ sent w' = sent w ∧ grows w w'.
Proof.
  intros Hr. pose proof (logs_logToolResult rt name result d false w) as Hg.
  destruct result; try done; (eexists; split; [reflexivity|done]).
Qed.

Lemma logToolResult_undefined name d w :
  ∃ w', logToolResult rt name VUndefined d false w =
          (Throw (TypeError (fault_message rt (ReadOfNullish VUndefined "substring"))), w')
        ∧ sent w' = sent w ∧ grows w w'.
Proof.
  pose proof (logs_logToolResult rt name VUndefined d false w) as Hg.
  eexists. split; [reflexivity|done].
Qed.

Lemma now_run w :
  ∃ t w', now rt w = (Ok t, w') ∧ sent w' = sent w ∧ console w' = console w.
Proof. unfold now. destruct (Date_now rt (ext w)). by eexists _, _. Qed.

(** The call handler in full.  If sanitizing the arguments for the log
    throws, so does the handler; otherwise the record is on the console,
    the operation runs in the world [w0] so reached, and the handler
    returns the envelope of what the [try] block came to. *)
Lemma callTool_run request w :
  let name := params_name request in
  let args := params_arguments request in
  ∃ w0, sent w0 = sent w ∧
    match sanitizeArgs rt args with
    | Throw e => callTool rt request w = (Throw e, w0) ∧ console w0 = console w
    | Ok _ =>
        (∃ time arguments,
           console w0 = console w ++ call_start_record name time "unknown" arguments) ∧
        ∃ w', callTool rt request w =
                (Ok (envelope rt (attempt rt (fst (dispatch rt name args w0)))), w')
              ∧ sent w' = sent (snd (dispatch rt name args w0))
              ∧ grows w0 w'
    end.
Proof.
  intros name args. unfold callTool. fold name. fold args.
  rewrite bind_run. destruct (now_run w) as (t & w1 & -> & Hs1 & Hc1).
  rewrite bind_run.
  destruct (logToolCall_outcome name args w1) as (w0 & Hc & Hs & Hlog).
  destruct (sanitizeArgs rt args) as [sanitized|e].
  2: { exists w0. split; [congruence|]. rewrite Hlog. split; [done|congruence]. }
  destruct Hlog as (time & arguments & ->).
  exists {| ext := ext w0; sent := sent w0;
            console := console w0 ++ call_start_record name time "unknown" arguments |}.
  split; [simpl; congruence|].
  split; [exists time, arguments; simpl; congruence|].
  unfold try_catch. rewrite bind_run.
  match goal with
  | |- context [dispatch rt name args ?w] =>
      pose proof (logs_dispatch rt name args w) as Hd;
      destruct (dispatch rt name args w) as [[result|e] w2]
  end; simpl in Hd.
  - rewrite bind_run. destruct (now_run w2) as (t2 & w2' & -> & Hs2 & Hc2).
    rewrite bind_run.
    assert (grows w2 w2') as Hg2 by (exists []; by rewrite app_nil_r).
    assert (result = VUndefined ∨ result ≠ VUndefined) as [->|Hr]
      by (destruct result; auto).
    + edestruct (logToolResult_undefined name) as (w3 & -> & Hs3 & Hg3).
      rewrite bind_run. destruct (now_run w3) as (t3 & w3' & -> & Hs3' & Hc3).
      rewrite bind_run.
      assert (grows w3 w3') as Hg3' by (exists []; by rewrite app_nil_r).
      edestruct (logToolResult_error name) as (w4 & -> & Hs4 & Hg4).
      eexists. split; [reflexivity|]. split; [simpl in *; congruence|].
      eauto using grows_trans.
    + edestruct (logToolResult_success name result) as (w3 & -> & Hs3 & Hg3); [done|].
      eexists. split.
      { simpl. by destruct result. }
      split; [simpl; congruence|]. eauto using grows_trans.
  - rewrite bind_run. destruct (now_run w2) as (t3 & w3' & -> & Hs3' & Hc3).
    rewrite bind_run.
    assert (grows w2 w3') as Hg3' by (exists []; by rewrite app_nil_r).
    edestruct (logToolResult_error name) as (w4 & -> & Hs4 & Hg4).
    eexists. split; [reflexivity|]. split; [simpl; congruence|].
    eauto using grows_trans.
Qed.
End ServerFacts.

Section CallFacts.
Context {U : Type} (rt : runtime U).

Lemma sanitizeArgs_opaque_length :
  sanitizeArgs rt opaque_length = Throw (TypeError (fault_message rt NotPrimitive)).
Proof. reflexivity. Qed.

(** The [switch] has a [case] for exactly the names advertised. *)
Lemma catalog_case_labels : catalog = fst <$> case_labels.
Proof. reflexivity. Qed.

Lemma case_of_catalog name : name ∉ catalog → case_of case_labels name = None.
Proof.
  intros Hn. unfold case_labels. cbn [case_of].
  repeat (rewrite bool_decide_false;
          [|intros ->; apply Hn, list_elem_of_In; simpl; tauto]).
  done.
Qed.

(** Once the call is logged, the handler returns an envelope. *)
Lemma callTool_returns request w sanitized :
  sanitizeArgs rt (params_arguments request) = Ok sanitized →
  ∃ w0 w',
    callTool rt request w =
      (Ok (envelope rt (attempt rt
             (fst (dispatch rt (params_name request) (params_arguments request) w0)))),
       w').
Proof.
  intros Hs. destruct (callTool_run rt request w) as (w0 & _ & H).
  rewrite Hs in H. destruct H as (_ & w' & H & _). eauto.
Qed.

(** An unknown operation fails by name and sends nothing upstream. *)
Lemma unknown_tool_fails name args w sanitized :
  name ∉ catalog →
  sanitizeArgs rt args = Ok sanitized →
  ∃ w', callTool rt {| params_name := name; params_arguments := args |} w =
          (Ok (failure_envelope ("Error: Unknown tool: " +:+ name)), w')
        ∧ sent w' = sent w.
Proof.
  intros Hn Hs.
  destruct (callTool_run rt {| params_name := name; params_arguments := args |} w)
    as (w0 & Hw0 & H).
  simpl in H. rewrite Hs in H. destruct H as (_ & w' & H & Hsent & _).
  unfold dispatch in *. rewrite (case_of_catalog _ Hn) in *.
  exists w'. split; [exact H|]. simpl in Hsent. congruence.
Qed.
End CallFacts.

Section Claims.
Context {U : Type} (rt : runtime U).

(** C1.  The claim: every call request ends in exactly one envelope and no
    exception leaves the call handler.  The code: the call-start logging
    sits before the [try]; on arguments whose [content.length] cannot be
    brought to a primitive, [sanitizeArgs] throws a TypeError there, and the
    handler lets it out without producing an envelope, whatever the
    operation named. *)
Theorem callTool_lets_logging_failure_escape (name : string) (w : world U) :
  fst (callTool rt {| params_name := name; params_arguments := opaque_length |} w)
  = Throw (TypeError (fault_message rt NotPrimitive)).
Proof.
  destruct (callTool_run rt {| params_name := name; params_arguments := opaque_length |} w)
    as (w0 & _ & H).
  simpl in H. rewrite sanitizeArgs_opaque_length in H. destruct H as [H _]. by rewrite H.
Qed.

(** C2.  The claim: an operation name outside the catalog yields, with any
    arguments, the failure envelope naming it.  The code does so with plain
    arguments (second part; [unknown_tool_fails] has it for every name
    outside the catalog and all arguments the logging accepts), but with
    arguments whose [content.length] cannot be brought to a primitive the
    exception of the call-start logging leaves the handler and there is no
    envelope (third part). *)
Theorem unknown_tool_with_opaque_length (w : world U) :
  ("nonexistent_op" ∉ catalog) ∧
  (fst (callTool rt {| params_name := "nonexistent_op";
                       params_arguments := obj [] |} w)
   = Ok (failure_envelope "Error: Unknown tool: nonexistent_op")) ∧
  (fst (callTool rt {| params_name := "nonexistent_op";
                       params_arguments := opaque_length |} w)
   = Throw (TypeError (fault_message rt NotPrimitive))).
Proof.
  assert ("nonexistent_op" ∉ catalog) as Hn.
  { rewrite list_elem_of_In. simpl. intros H. repeat destruct H as [H|H]; done. }
  split; [done|]. split.
  - edestruct (unknown_tool_fails rt "nonexistent_op" (obj []) w) as (w' & -> & _);
      [done|reflexivity|done].
  - destruct (callTool_run rt {| params_name := "nonexistent_op";
                                 params_arguments := opaque_length |} w)
      as (w0 & _ & H).
    simpl in H. rewrite sanitizeArgs_opaque_length in H. destruct H as [H _].
    by rewrite H.
Qed.

(** The handler once the call-start record is written: in the world [w0]
    the logging left, it returns the envelope of what the [try] block comes
    to, whatever the operation does. *)
Lemma callTool_after_logging (request : call_request) (w : world U) sanitized :
  let name := params_name request in
  let args := params_arguments request in
  sanitizeArgs rt args = Ok sanitized →
  let w0 := snd ((now rt ≫= λ _, logToolCall rt name args VUndefined) w) in
  ∃ w', callTool rt request w =
          (Ok (envelope rt (attempt rt (fst (dispatch rt name args w0)))), w').
Proof.
  intros name args Hs w0. subst w0. unfold callTool. fold name. fold args.
  rewrite !bind_run. destruct (now_run rt w) as (t & w1 & -> & _).
  rewrite bind_run.
  destruct (logToolCall_outcome rt name args w1) as (w2 & _ & _ & Hlog).
  rewrite Hs in Hlog. destruct Hlog as (time & arguments & ->). cbn [snd].
  unfold try_catch. rewrite bind_run.
  destruct (dispatch rt name args _) as [[result|e] w3]; cbn [fst].
  - rewrite bind_run. destruct (now_run rt w3) as (t3 & w4 & -> & _).
    rewrite bind_run.
    assert (result = VUndefined ∨ result ≠ VUndefined) as [->|Hr]
      by (destruct result; auto).
    + destruct (logToolResult_undefined rt name (t3 - t) w4) as (w5 & -> & _).
      rewrite bind_run. destruct (now_run rt w5) as (t5 & w6 & -> & _).
      rewrite bind_run.
      edestruct (logToolResult_error rt name) as (w7 & -> & _). by eexists.
    + destruct (logToolResult_success rt name result (t3 - t) w4 Hr) as (w5 & -> & _).
      eexists. simpl. by destruct result.
  - rewrite bind_run. destruct (now_run rt w3) as (t3 & w4 & -> & _).
    rewrite bind_run.
    edestruct (logToolResult_error rt name) as (w5 & -> & _). by eexists.
Qed.

(** C3.  Every outcome is serialized in the uniform envelope.  For a
    request whose arguments the call-start logging accepts, the handler
    returns, and what it returns is fixed by what the operation does in the
    world [w0] the logging left: if the operation returns a result, the
    envelope is [{content: [{type: "text", text: <JSON of the result>}]}]
    and has no error flag; if it throws, the envelope has the same
    [content] shape holding ["Error: <message>"], and [isError] is [true].
    (A result of [undefined], which no operation returns, makes the logging
    of the result throw inside the [try], and is answered as that failure.) *)
Theorem callTool_envelope (request : call_request) (w : world U) (sanitized : value) :
  let name := params_name request in
  let args := params_arguments request in
  sanitizeArgs rt args = Ok sanitized →
  let w0 := snd ((now rt ≫= λ _, logToolCall rt name args VUndefined) w) in
  ∃ (w' : world U) (o : object) (text : string),
    callTool rt request w = (Ok (VObj o), w') ∧
    o !! "content" = Some (VArr [obj [("type", VStr "text"); ("text", VStr text)]]) ∧
    (∀ k, k ≠ "content" → k ≠ "isError" → o !! k = None) ∧
    match fst (dispatch rt name args w0) with
    | Ok VUndefined =>
        text = "Error: " +:+ fault_message rt (ReadOfNullish VUndefined "substring") ∧
        o !! "isError" = Some (VBool true)
    | Ok result => text = JSON_text rt 2 result ∧ o !! "isError" = None
    | Throw e => text = "Error: " +:+ message e ∧ o !! "isError" = Some (VBool true)
    end.
Proof.
  intros name args Hs w0.
  destruct (callTool_after_logging request w sanitized Hs) as (w' & ->).
  fold name args w0.
  assert (∀ (k : string) (v : value) (m : object),
            k ≠ "content" → k ≠ "isError" → m !! k = None →
            (<["content" := v]> m) !! k = None) as Hc
    by (intros; by rewrite lookup_insert_ne).
  destruct (fst (dispatch rt name args w0)) as [result|e]; [destruct result|];
    (eexists w', _, _; split; [reflexivity|]);
    (split; [reflexivity|]);
    (split; [|split; reflexivity]);
    intros k Hk1 Hk2; unfold list_to_map; cbn [foldr fst snd];
    rewrite !lookup_insert_ne by done; apply lookup_empty.
Qed.

(** C8.  The claim: the call-start record carries the identifier of the
    session the call belongs to.  The code: the handler calls [logToolCall]
    without a session argument, so whenever the record is written its
    session line reads ["unknown"], next to the operation name, the time
    and the sanitized arguments. *)
Theorem call_start_record_names_no_session (request : call_request) (w : world U) :
  match sanitizeArgs rt (params_arguments request) with
  | Ok _ =>
      ∃ time arguments rest,
        console (snd (callTool rt request w)) =
        console w ++ call_start_record (params_name request) time "unknown" arguments
                  ++ rest
  | Throw _ => console (snd (callTool rt request w)) = console w
  end.
Proof.
  destruct (callTool_run rt request w) as (w0 & _ & H).
  destruct (sanitizeArgs rt _).
  - destruct H as ((time & arguments & Hc) & w' & -> & _ & rest & Hg).
    exists time, arguments, rest. simpl. by rewrite Hg, Hc, <- app_assoc.
  - destruct H as [-> Hc]. done.
Qed.
End Claims.

(** ** The upstream request primitive *)
Section UpstreamFacts.
Context {U : Type} (rt : runtime U).

Lemma request_options_token endpoint method body :
  getGithubToken rt ≠ "" →
  ∃ req, request_options rt endpoint method body = Ok req.
Proof.
  intros Ht. unfold request_options. simpl.
  rewrite bool_decide_false by done. simpl. eauto.
Qed.

Lemma githubRequest_run endpoint method body req w :
  request_options rt endpoint method body = Ok req →
  githubRequest rt endpoint method body w =
    ((r ← settle (fetch rt req (ext w)).1; read_response rt r),
     {| ext := (fetch rt req (ext w)).2; sent := sent w ++ [req];
        console := console w |}).
Proof.
  intros Hreq. unfold githubRequest. rewrite bind_run. unfold lift at 1.
  rewrite Hreq. rewrite bind_run. unfold send.
  by destruct (fetch rt req (ext w)).
Qed.

(** C7.  The contract of [githubRequest]: without a credential it fails
    with an error message and the world is untouched (no request sent); on a
    204 response it returns the fixed value [{success: true}] without
    looking at the body; on a response outside 200..299 it fails, with the
    upstream's [message] when the body carries one; on any other response
    it returns the parsed body. *)
Theorem githubRequest_contract (endpoint method : string) (body : value) (w : world U) :
  (getGithubToken rt = "" →
   githubRequest rt endpoint method body w =
     (Throw (Error "GITHUB_TOKEN environment variable is not set"), w)) ∧
  (getGithubToken rt ≠ "" →
   ∃ req, request_options rt endpoint method body = Ok req ∧
     ∀ r u, fetch rt req (ext w) = (Responded r, u) →
       let w' := {| ext := u; sent := sent w ++ [req]; console := console w |} in
       (status r = 204%Z →
        githubRequest rt endpoint method body w = (Ok (obj [("success", VBool true)]), w')) ∧
       (¬ (200 ≤ status r ≤ 299)%Z →
        (∃ e, githubRequest rt endpoint method body w = (Throw e, w')) ∧
        (∀ (o : object) (m : string),
           json r = Some (VObj o) → o !! "message" = Some (VStr m) → m ≠ "" →
           githubRequest rt endpoint method body w = (Throw (Error m), w'))) ∧
       ((200 ≤ status r ≤ 299)%Z → status r ≠ 204%Z →
        ∀ v, json r = Some v →
             githubRequest rt endpoint method body w = (Ok v, w'))).
Proof.
  split.
  - intros Ht. unfold githubRequest, request_options. rewrite Ht. reflexivity.
  - intros Ht. destruct (request_options_token endpoint method body Ht) as [req Hreq].
    exists req. split; [done|]. intros r u Hf w'.
    rewrite (githubRequest_run _ _ _ _ _ Hreq), Hf. cbn [fst snd settle mbind result_bind].
    fold w'. unfold read_response, ok. split; [|split].
    + intros ->. done.
    + intros Hs. rewrite bool_decide_false by lia. case_bool_decide; [done|].
      cbn [negb]. split.
      * destruct (get rt _ _); [|by eauto]. cbn [mbind result_bind].
        destruct (ToString rt _); cbn [mbind result_bind]; eauto.
      * intros o m Hj Hm Hne. rewrite Hj. cbn [get]. rewrite Hm.
        change (default VUndefined (Some (VStr m))) with (VStr m).
        cbn [mbind result_bind]. unfold or_else. cbn [truthy].
        rewrite bool_decide_false by done. done.
    + intros Hs Hn v Hv. rewrite (bool_decide_false _ Hn).
      case_bool_decide; [|done]. cbn [negb]. by rewrite Hv.
Qed.

Lemma githubVerifyToken_cases (w : world U) :
  match githubGetUser rt w with
  | (Ok user, w') =>
      match user with
      | VUndefined | VNull =>
          githubVerifyToken rt w =
            (Ok (obj [("valid", VBool false);
                      ("error", VStr (fault_message rt (ReadOfNullish user "login")))]), w')
      | _ =>
          ∃ login name email avatar_url,
            get rt user "login" = Ok login ∧ get rt user "name" = Ok name ∧
            get rt user "email" = Ok email ∧ get rt user "avatar_url" = Ok avatar_url ∧
            githubVerifyToken rt w =
              (Ok (obj [("valid", VBool true);
                        ("user", obj [("login", login); ("name", name);
                                      ("email", email); ("avatar_url", avatar_url)])]), w')
      end
  | (Throw e, w') =>
      githubVerifyToken rt w =
        (Ok (obj [("valid", VBool false); ("error", VStr (message e))]), w')
  end.
Proof.
  unfold githubVerifyToken, try_catch. rewrite bind_run.
  destruct (githubGetUser rt w) as [[user|e] w']; [|done].
  destruct user; try done; by eexists _, _, _, _.
Qed.

Lemma githubVerifyToken_returns (w : world U) :
  ∃ (o : object) w', githubVerifyToken rt w = (Ok (VObj o), w').
Proof.
  pose proof (githubVerifyToken_cases w) as H.
  destruct (githubGetUser rt w) as [[user|e] w']; [|by eexists _, _].
  destruct user; try (by eexists _, _);
    destruct H as (? & ? & ? & ? & _ & _ & _ & _ & ->); by eexists _, _.
Qed.

(** C9, amended.  [githubVerifyToken] never throws: it returns
    [{valid: true, user: {login, name, email, avatar_url}}] when the user
    lookup yields anything but [null] (or [undefined]), and
    [{valid: false, error: <message>}] when the lookup fails or yields
    [null].  So a [github_verify_token] call whose arguments the call-start
    logging accepts always gets a success envelope. *)
Theorem githubVerifyToken_total :
  (∀ w : world U,
     (∃ (o : object) w', githubVerifyToken rt w = (Ok (VObj o), w')) ∧
     match githubGetUser rt w with
     | (Ok user, w') =>
         match user with
         | VUndefined | VNull =>
             githubVerifyToken rt w =
               (Ok (obj [("valid", VBool false);
                         ("error", VStr (fault_message rt (ReadOfNullish user "login")))]),
                w')
         | _ =>
             ∃ login name email avatar_url,
               get rt user "login" = Ok login ∧ get rt user "name" = Ok name ∧
               get rt user "email" = Ok email ∧
               get rt user "avatar_url" = Ok avatar_url ∧
               githubVerifyToken rt w =
                 (Ok (obj [("valid", VBool true);
                           ("user", obj [("login", login); ("name", name);
                                         ("email", email);
                                         ("avatar_url", avatar_url)])]), w')
         end
     | (Throw e, w') =>
         githubVerifyToken rt w =
           (Ok (obj [("valid", VBool false); ("error", VStr (message e))]), w')
     end) ∧
  (∀ (args sanitized : value) (w : world U),
     sanitizeArgs rt args = Ok sanitized →
     ∃ payload w',
       callTool rt {| params_name := "github_verify_token";
                      params_arguments := args |} w
       = (Ok (envelope rt (Ok payload)), w')).
Proof.
  split.
  - intros w. split; [apply githubVerifyToken_returns|apply githubVerifyToken_cases].
  - intros args sanitized w Hs.
    destruct (callTool_returns rt {| params_name := "github_verify_token";
                                     params_arguments := args |} w sanitized Hs)
      as (w0 & w' & ->).
    change (dispatch rt _ _ w0) with (githubVerifyToken rt w0).
    destruct (githubVerifyToken_returns w0) as (o & w1 & ->). by eexists _, _.
Qed.
End UpstreamFacts.

(** C9 as stated fails: the user lookup succeeds, with [null], and the
    token is reported invalid all the same. *)
Lemma githubVerifyToken_null_user :
  let rt := scripted (Some "t") in
  let w := start [Responded {| status := 200; statusText := "OK"; json := Some VNull |}] in
  fst (githubGetUser rt w) = Ok VNull ∧
  fst (githubVerifyToken rt w) =
    Ok (obj [("valid", VBool false);
             ("error", VStr "Cannot read properties of null (reading 'login')")]).
Proof. split; vm_compute; reflexivity. Qed.

(** ** The session table *)
Section HttpFacts.
Context {G R : Type} (h : host G R).
Implicit Types (st : state G R) (g : G).

(** [consistent] holds at the start and is kept by every request. *)
Lemma consistent_initial g r : consistent h g 0 (initial g r).
Proof. split; simpl; try done; intros *; by rewrite lookup_empty. Qed.

Lemma known_Some header st s :
  known header st = Some s →
  ∃ id, header = Some id ∧ id ≠ "" ∧ sessions st !! id = Some s.
Proof.
  unfold known. destruct header as [id|]; [|done]. simpl.
  case_bool_decide; simpl; [done|]. eauto.
Qed.

Lemma known_lookup id st :
  id ≠ "" → known (Some id) st = sessions st !! id.
Proof. intros. unfold known. simpl. by rewrite bool_decide_false. Qed.

(** The callback of a transport in the table writes what is there. *)
Lemma onsessioninitialized_known g n st id s :
  consistent h g n st → sessions st !! id = Some s →
  onsessioninitialized (transport s) st = sessions st.
Proof.
  intros Hc Hs. unfold onsessioninitialized.
  rewrite (keys_captured _ _ _ _ Hc _ _ Hs). by apply insert_id.
Qed.

Lemma resolve_known header st id s :
  header = Some id → known header st = Some s →
  resolve h header st = (Ok (id, s), st).
Proof. intros -> Hk. unfold resolve. by rewrite Hk. Qed.

Lemma resolve_unknown header st :
  known header st = None →
  resolve h header st =
    let '(sessionId, g) := randomUUID h (generator st) in
    let binding := {| transport := S (objects st); server := objects st |} in
    let '(thrown, r) := connect h binding (library st) in
    let st1 := {| generator := g; library := r; sessions := sessions st;
                  callbacks := <[S (objects st) := (sessionId, binding)]> (callbacks st);
                  objects := S (S (objects st)) |} in
    match thrown with
    | Some e => (Throw e, st1)
    | None => (Ok (sessionId, binding),
               {| generator := g; library := r;
                  sessions := <[sessionId := binding]> (sessions st);
                  callbacks := callbacks st1; objects := objects st1 |})
    end.
Proof. intros Hk. unfold resolve. destruct header; by rewrite ?Hk. Qed.

Lemma consistent_resolve g n st header :
  consistent h g n st →
  ∃ n', consistent h g n' (resolve h header st).2 ∧
        match (resolve h header st).1 with
        | Ok (id, s) => sessions (resolve h header st).2 !! id = Some s
        | Throw _ => True
        end.
Proof.
  intros Hc. destruct (known header st) as [s|] eqn:Hk.
  - destruct (known_Some _ _ _ Hk) as (id & -> & _ & Hs).
    rewrite (resolve_known _ _ id s eq_refl Hk). eauto.
  - rewrite (resolve_unknown _ _ Hk).
    assert (randomUUID h (generator st) = (uuid h g n, drawn h g (S n))) as ->.
    { unfold uuid. simpl. rewrite <- (drawn_so_far _ _ _ _ Hc).
      by destruct (randomUUID h (generator st)). }
    cbv zeta.
    destruct (connect h {| transport := S (objects st); server := objects st |}
                (library st)) as [thrown r].
    exists (S n). destruct Hc as [Hg Hi Hcap Hcb Hb].
    destruct thrown as [e|]; simpl.
    + split; [|done]. split; simpl.
      * done.
      * intros id s Hs. destruct (Hi _ _ Hs) as (i & ? & ?).
        exists i. split; [lia|done].
      * intros id s Hs. rewrite lookup_insert_ne; [by apply Hcap|].
        destruct (Hb _ _ Hs). lia.
      * intros t c [[<- <-]|[? Ht]]%lookup_insert_Some; [lia|].
        apply Hcb in Ht. lia.
      * intros id s Hs. destruct (Hb _ _ Hs). lia.
    + split; [|by rewrite lookup_insert_eq]. split; simpl.
      * done.
      * intros id s [[<- <-]|[? Hs]]%lookup_insert_Some.
        -- exists n. split; [lia|done].
        -- destruct (Hi _ _ Hs) as (i & ? & ?). exists i. split; [lia|done].
      * intros id s [[<- <-]|[? Hs]]%lookup_insert_Some.
        -- simpl. by rewrite lookup_insert_eq.
        -- rewrite lookup_insert_ne; [by apply Hcap|]. destruct (Hb _ _ Hs). lia.
      * intros t c [[<- <-]|[? Ht]]%lookup_insert_Some; [lia|].
        apply Hcb in Ht. lia.
      * intros id s [[<- <-]|[? Hs]]%lookup_insert_Some; simpl; [lia|].
        destruct (Hb _ _ Hs). lia.
Qed.

(** Past the resolution, a [POST] leaves the table as it is. *)
Lemma post_mcp_sessions g n st header :
  consistent h g n st →
  sessions (post_mcp h header st).2 = sessions (resolve h header st).2
  ∧ callbacks (post_mcp h header st).2 = callbacks (resolve h header st).2
  ∧ objects (post_mcp h header st).2 = objects (resolve h header st).2
  ∧ generator (post_mcp h header st).2 = generator (resolve h header st).2.
Proof.
  intros Hc. destruct (consistent_resolve g n st header Hc) as (n' & Hc' & Hs).
  unfold post_mcp. destruct (resolve h header st) as [[[id s]|e] st1]; [|done].
  simpl in *. destruct (handleRequest h _ _) as [hd r].
  assert (sessions (if initialized hd
                    then {| generator := generator st1; library := r;
                            sessions := onsessioninitialized (transport s) st1;
                            callbacks := callbacks st1; objects := objects st1 |}
                    else {| generator := generator st1; library := r;
                            sessions := sessions st1;
                            callbacks := callbacks st1; objects := objects st1 |})
          = sessions st1) as Hsame.
  { destruct (initialized hd); simpl; [|done].
    by apply (onsessioninitialized_known g n' st1 id s). }
  destruct (failure hd), (initialized hd); simpl in *; done.
Qed.

Lemma consistent_serve g n st req :
  consistent h g n st → ∃ n', consistent h g n' (serve h st req).
Proof.
  intros Hc. destruct req as [header|header]; simpl.
  - destruct (consistent_resolve g n st header Hc) as (n' & [Hg Hi Hcap Hcb Hb] & _).
    destruct (post_mcp_sessions g n st header Hc) as (Hs & Hcbs & Ho & Hgen).
    exists n'. split; rewrite ?Hs, ?Hcbs, ?Ho, ?Hgen; done.
  - exists n. unfold delete_mcp.
    destruct header as [id|]; [|done]. destruct (known _ _); [|done].
    destruct Hc as [Hg Hi Hcap Hcb Hb]. split; simpl; try done.
    all: intros id' s' [_ Hs]%lookup_delete_Some; eauto.
Qed.

Lemma consistent_reachable g st :
  reachable h g st → ∃ n, consistent h g n st.
Proof.
  intros (r & reqs & ->). induction reqs as [|req reqs IH] using rev_ind.
  - exists 0. apply consistent_initial.
  - rewrite foldl_snoc. destruct IH as [n IH]. by eapply consistent_serve.
Qed.
End HttpFacts.

Section SessionClaims.
Context {G R : Type} (h : host G R).
Implicit Types (st : state G R) (g : G).

Lemma issued_key_nonempty g n st id s :
  unique_ids h g → consistent h g n st → sessions st !! id = Some s → id ≠ "".
Proof.
  intros [Hne _] Hc Hs. destruct (keys_issued _ _ _ _ Hc _ _ Hs) as (i & _ & ->).
  apply Hne.
Qed.

Lemma next_uuid_fresh g n st :
  unique_ids h g → consistent h g n st →
  sessions st !! fst (randomUUID h (generator st)) = None.
Proof.
  intros [_ Hinj] Hc. rewrite (drawn_so_far _ _ _ _ Hc). fold (uuid h g n).
  destruct (sessions st !! uuid h g n) as [s|] eqn:Hs; [|done].
  destruct (keys_issued _ _ _ _ Hc _ _ Hs) as (i & Hi & Heq).
  apply Hinj in Heq. lia.
Qed.

Lemma post_mcp_reply header st id s st1 :
  resolve h header st = (Ok (id, s), st1) →
  (post_mcp h header st).1 = Handled id s
  ∨ ∃ msg, (post_mcp h header st).1 = InternalError (Some id) msg.
Proof.
  intros Hr. unfold post_mcp. rewrite Hr.
  destruct (handleRequest h _ _) as [hd r]. destruct (failure hd); eauto.
Qed.

(** C5.  Session resolution on [POST /mcp], in any state the server can
    reach, the identifier generator being what [randomUUID] promises.  With
    an identifier of the table in the header, the binding found is used, the
    identifier is echoed, and table, callbacks and objects stay as they are.
    Otherwise the identifier drawn is in no binding of the table, the server
    and transport constructed are objects no binding holds, and, provided
    [server.connect] returns, the table gains exactly that binding under
    that identifier, which is echoed. *)
Theorem post_mcp_resolution g st (header : option string) :
  unique_ids h g → reachable h g st →
  let out := post_mcp h header st in
  (∀ id s, header = Some id → sessions st !! id = Some s →
     sessions out.2 = sessions st ∧ callbacks out.2 = callbacks st ∧
     objects out.2 = objects st ∧
     (out.1 = Handled id s ∨ ∃ msg, out.1 = InternalError (Some id) msg)) ∧
  ((∀ id, header = Some id → sessions st !! id = None) →
     let id' := fst (randomUUID h (generator st)) in
     let binding := {| transport := S (objects st); server := objects st |} in
     sessions st !! id' = None ∧
     (∀ id s, sessions st !! id = Some s →
              transport s < objects st ∧ server s < objects st) ∧
     ((connect h binding (library st)).1 = None →
      sessions out.2 = <[id' := binding]> (sessions st) ∧
      (out.1 = Handled id' binding ∨ ∃ msg, out.1 = InternalError (Some id') msg))).
Proof.
  intros Hu [n Hc]%consistent_reachable out.
  destruct (post_mcp_sessions h g n st header Hc) as (Hs & Hcb & Ho & _).
  split.
  - intros id s -> Hid.
    assert (resolve h (Some id) st = (Ok (id, s), st)) as Hr.
    { apply resolve_known; [done|]. rewrite known_lookup; [done|].
      by eapply issued_key_nonempty. }
    subst out. rewrite Hs, Hcb, Ho, Hr. repeat split; try done.
    by eapply post_mcp_reply.
  - intros Hnone id' binding.
    split; [by eapply next_uuid_fresh|]. split; [apply Hc|].
    intros Hconn.
    assert (known header st = None) as Hk.
    { destruct header as [id|]; [|done]. unfold known. simpl.
      destruct (negb _); [by apply Hnone|done]. }
    pose proof (resolve_unknown h header st Hk) as Hr. cbv zeta in Hr.
    fold binding in Hr. destruct (randomUUID h (generator st)) as [sid g'] eqn:Hg.
    destruct (connect h binding (library st)) as [thrown r].
    simpl in Hconn. subst thrown. subst id'. simpl.
    subst out. rewrite Hs, Hr. split; [done|]. by eapply post_mcp_reply.
Qed.

(** C6.  Session termination on [DELETE /mcp], in any state the server
    can reach: 200 with the binding removed when the identifier presented is
    in the table, 404 with the state unchanged otherwise; a second request
    gets 404 and changes nothing; and a later [POST] with that identifier is
    resolved as one without any. *)
Theorem delete_mcp_terminates g st (header : option string) :
  unique_ids h g → reachable h g st →
  let out := delete_mcp header st in
  match header with
  | Some id =>
      match sessions st !! id with
      | Some _ => out.1.1 = 200%Z ∧ sessions out.2 = delete id (sessions st)
      | None => out.1.1 = 404%Z ∧ out.2 = st
      end
  | None => out.1.1 = 404%Z ∧ out.2 = st
  end ∧
  (delete_mcp header out.2).1.1 = 404%Z ∧
  (delete_mcp header out.2).2 = out.2 ∧
  resolve h header out.2 = resolve h None out.2.
Proof.
  intros Hu [n Hc]%consistent_reachable out.
  assert (known header out.2 = None) as Hk.
  { subst out. unfold delete_mcp.
    destruct header as [id|]; [|done].
    destruct (known (Some id) st) eqn:Hk; simpl; [|done].
    unfold known. simpl. destruct (negb _); [|done]. apply lookup_delete_eq. }
  split; [|split; [|split]].
  - subst out. unfold delete_mcp. destruct header as [id|]; [|done].
    destruct (sessions st !! id) as [s|] eqn:Hs.
    + rewrite known_lookup, Hs by (by eapply issued_key_nonempty). done.
    + assert (known (Some id) st = None) as ->; [|done].
      unfold known. simpl. by destruct (negb _).
  - unfold delete_mcp at 1. destruct header; by rewrite ?Hk.
  - unfold delete_mcp at 1. destruct header; by rewrite ?Hk.
  - rewrite (resolve_unknown h header _ Hk). by rewrite (resolve_unknown h None).
Qed.
End SessionClaims.

(** The counting host hands out distinct, non-empty identifiers. *)
Lemma counting_drawn (n : nat) : drawn counting 0 n = n.
Proof. induction n as [|n IH]; [done|]. unfold drawn in *. simpl in *. congruence. Qed.

Lemma counting_unique : unique_ids counting 0.
Proof.
  split.
  - intros i. unfold uuid. by rewrite counting_drawn.
  - intros i j. unfold uuid. rewrite !counting_drawn. simpl.
    intros Heq. by apply (inj (String.app "session-")), (inj pretty) in Heq.
Qed.

(** After a first [POST], a [POST] with the identifier issued keeps the
    table, one with an identifier never issued adds a session. *)
Lemma post_mcp_resolution_witness :
  let st := foldl (serve counting) (initial 0 ()) [POST None] in
  unique_ids counting 0 ∧ reachable counting 0 st ∧
  sessions (post_mcp counting (Some "session-0") st).2 = sessions st ∧
  sessions (post_mcp counting (Some "session-7") st).2
  = <["session-1" := {| transport := 3; server := 2 |}]> (sessions st).
Proof.
  intros st.
  assert (reachable counting 0 st) as Hr by (by exists (), [POST None]).
  split; [exact counting_unique|]. split; [exact Hr|]. split.
  - destruct (post_mcp_resolution counting 0 st (Some "session-0") counting_unique Hr)
      as [Ha _].
    apply (Ha "session-0" {| transport := 1; server := 0 |} eq_refl). reflexivity.
  - destruct (post_mcp_resolution counting 0 st (Some "session-7") counting_unique Hr)
      as [_ Hb].
    apply Hb; [|reflexivity]. intros id [= <-]. reflexivity.
Defined.

(** After a first [POST], terminating its session twice: 200, then 404. *)
Lemma delete_mcp_terminates_witness :
  let st := foldl (serve counting) (initial 0 ()) [POST None] in
  unique_ids counting 0 ∧ reachable counting 0 st ∧
  (delete_mcp (Some "session-0") st).1.1 = 200%Z ∧
  (delete_mcp (Some "session-0")
     (delete_mcp (Some "session-0") st).2).1.1 = 404%Z.
Proof.
  intros st.
  assert (reachable counting 0 st) as Hr by (by exists (), [POST None]).
  split; [exact counting_unique|]. split; [exact Hr|].
  pose proof (delete_mcp_terminates counting 0 st (Some "session-0") counting_unique Hr)
    as (H1 & H2 & _).
  split; [|exact H2].
  change (sessions st !! "session-0") with (Some {| transport := 1; server := 0 |}) in H1.
  apply H1.
Defined.

(** ** Arguments in the store *)
Section StoreFacts.
Context {U : Type} (rt : runtime U).

(** Allocation does not change what a closed store holds behind a
    value. *)
Lemma read_alloc (σ : Store.store) (l' : nat) (c : Store.cell) :
  Store.closed σ → l' ∉ dom σ →
  ∀ n v, Store.valid σ v → Store.read n (<[l' := c]> σ) v = Store.read n σ v.
Proof.
  intros Hcl Hl'. induction n as [|n IH]; intros v Hv; [by destruct v|].
  destruct v as [| | | | |l]; try done. simpl in *.
  assert (l ≠ l') as Hne by (intros ->; done).
  rewrite lookup_insert_ne by done.
  destruct (σ !! l) as [[fields|elems]|] eqn:Hl; [| |done].
  - f_equal. apply map_fmap_ext. intros k x Hk. apply IH.
    by apply (Hcl l _ Hl k x).
  - f_equal. apply list_fmap_ext. intros i x Hx. apply IH.
    pose proof (Hcl l _ Hl) as Hall. simpl in Hall.
    rewrite Forall_lookup in Hall. by eapply Hall.
Qed.

(** [Store.sanitizeArgs] in its stages. *)
Lemma store_sanitizeArgs_stages fuel args σ :
  Store.sanitizeArgs rt fuel args σ =
  if negb (Store.truthy args) then (Ok args, σ) else
  let l := fresh (dom σ) in
  match hide_in_store rt fuel σ (Store.spread σ args) with
  | Throw e => (Throw e, <[l := Store.Object (Store.spread σ args)]> σ)
  | Ok o =>
      (Ok (Store.Ref l),
       <[l := Store.Object (redact_in_store "password" (redact_in_store "token" o))]> σ)
  end.
Proof. reflexivity. Qed.

(** Sanitizing fails only on a [content] that is an object: the
    [length] of anything else is a number or [undefined], which the
    comparison and the template take. *)
Lemma store_hide_content_returns (fuel : nat) (σ : Store.store)
    (sanitized : gmap string Store.hval) :
  (∀ l fields, default Store.Undefined (sanitized !! "content") = Store.Ref l →
               σ !! l ≠ Some (Store.Object fields)) →
  ∃ o1, hide_in_store rt fuel σ sanitized = Ok o1.
Proof.
  intros Hplain. unfold hide_in_store.
  destruct (Store.truthy _); [|by eauto].
  assert (Store.read fuel σ
            (Store.length_of σ (default Store.Undefined (sanitized !! "content")))
          = VUndefined ∨
          ∃ n, Store.read fuel σ
                 (Store.length_of σ (default Store.Undefined (sanitized !! "content")))
               = VNum n) as [-> | [n ->]].
  { destruct (default Store.Undefined (sanitized !! "content")) as [| | | |s|l] eqn:Hc;
      try (left; by destruct fuel).
    - right. eexists. by destruct fuel.
    - simpl. destruct (σ !! l) as [[fields|elems]|] eqn:Hl.
      + by destruct (Hplain l fields).
      + right. eexists. by destruct fuel.
      + left. by destruct fuel. }
  - by eauto.
  - unfold greater_than. cbn [mbind result_bind ToNumber].
    destruct (number_lt _ _); by eauto.
Qed.

(** C10.  [sanitizeArgs] on objects with identity: given nothing (or
    anything falsy) it returns its input and leaves the store alone; in any
    case it writes to no object of the caller's store; given an object whose
    [content] is not itself an object it returns, and what it returns is a
    newly allocated object; whenever it returns on a truthy argument, the
    new object's fields other than [content], [token] and [password] are
    those of the input (the same references, so nested structures are
    shared, not copied), with [content] differing only when its [length]
    exceeds 200; and what the handler afterwards reads through [args] is
    what was there before. *)
Theorem sanitizeArgs_copies (fuel : nat) (args : Store.hval) (σ : Store.store) :
  let out := Store.sanitizeArgs rt fuel args σ in
  (Store.truthy args = false → out = (Ok args, σ)) ∧
  (∀ l, l ∈ dom σ → out.2 !! l = σ !! l) ∧
  (Store.truthy args = true →
   (∀ l fields, default Store.Undefined (Store.spread σ args !! "content") = Store.Ref l →
                σ !! l ≠ Some (Store.Object fields)) →
   out.1 = Ok (Store.Ref (fresh (dom σ)))) ∧
  (Store.truthy args = true → ∀ r, out.1 = Ok r →
   ∃ fields : gmap string Store.hval,
     r = Store.Ref (fresh (dom σ)) ∧ (fresh (dom σ) ∉ dom σ) ∧
     out.2 = <[fresh (dom σ) := Store.Object fields]> σ ∧
     (∀ k, others k → fields !! k = Store.spread σ args !! k) ∧
     ((fields !! "content" ≠ Store.spread σ args !! "content") →
      greater_than rt
        (Store.read fuel σ
           (Store.length_of σ
              (default Store.Undefined (Store.spread σ args !! "content"))))
        200 = Ok true)) ∧
  (Store.closed σ → Store.valid σ args →
   ∀ n, Store.read n out.2 args = Store.read n σ args).
Proof.
  intros out. subst out.
  pose proof (is_fresh (dom σ)) as Hfresh.
  assert (Store.truthy args = true →
          (∀ l fields,
             default Store.Undefined (Store.spread σ args !! "content") = Store.Ref l →
             σ !! l ≠ Some (Store.Object fields)) →
          (Store.sanitizeArgs rt fuel args σ).1 = Ok (Store.Ref (fresh (dom σ))))
    as Hreturns.
  { intros Hargs Hplain. rewrite store_sanitizeArgs_stages, Hargs. cbn [negb].
    by destruct (store_hide_content_returns fuel σ _ Hplain) as [o1 ->]. }
  unfold Store.sanitizeArgs in *.
  destruct (Store.truthy args) eqn:Hargs; cbn [negb] in *.
  2: { repeat split; try done. }
  set (l' := fresh (dom σ)) in *.
  set (sanitized := Store.spread σ args) in *.
  set (content := default Store.Undefined (sanitized !! "content")) in *.
  match goal with |- context [match ?hid with Ok _ => _ | Throw _ => _ end] =>
    set (hidden := hid) in * end.
  assert (∀ l, l ∈ dom σ → l ≠ l') as Hne by (intros l Hl ->; done).
  split; [done|]. split; [|split; [exact Hreturns|split]].
  - intros l Hl. destruct hidden; simpl; rewrite lookup_insert_ne; auto.
    all: intros <-; by apply (Hne l').
  - intros _ r Hr. destruct hidden as [o1|e] eqn:Hh; [|done].
    simpl in Hr. injection Hr as <-. eexists. split; [done|]. split; [done|].
    split; [reflexivity|].
    assert (o1 = sanitized ∨
            (∃ text, o1 = <["content" := Store.Str text]> sanitized) ∧
            greater_than rt (Store.read fuel σ (Store.length_of σ content)) 200 = Ok true)
      as Ho1.
    { subst hidden. destruct (Store.truthy content); [|left; by injection Hh].
      destruct (greater_than rt _ 200) as [[]|]; [| left; by injection Hh |done].
      cbn [mbind result_bind] in Hh. destruct (template rt _); [|done].
      cbn [mbind result_bind] in Hh. right. split; [|done].
      eexists. by injection Hh. }
    split.
    + intros k (Hc & Ht & Hp).
      repeat (case_match; rewrite ?lookup_insert_ne by done).
      all: destruct Ho1 as [-> | [[text ->] _]]; by rewrite ?lookup_insert_ne.
    + intros Hdiff. destruct Ho1 as [-> | [_ Hgt]]; [|done].
      exfalso. apply Hdiff.
      repeat (case_match; rewrite ?lookup_insert_ne by done); done.
  - intros Hcl Hv n. destruct hidden; simpl; by apply read_alloc.
Qed.
End StoreFacts.

Section Refinement.
Context {U : Type} (rt : runtime U).

Lemma read_bounded σ n v :
  bounded n σ v → ∀ m, n ≤ m → Store.read m σ v = Store.read n σ v.
Proof.
  revert v. induction n as [|n IH]; intros v Hb m Hm; [by destruct v, m|].
  destruct v as [| | | | |l]; try (by destruct m).
  destruct m as [|m]; [lia|]. simpl in *.
  destruct (σ !! l) as [[fields|elems]|]; [| |done].
  - f_equal. apply map_fmap_ext. intros k x Hk. apply IH; [by apply (Hb k)|lia].
  - f_equal. apply list_fmap_ext. intros i x Hx. apply IH; [|lia].
    rewrite Forall_lookup in Hb. by eapply Hb.
Qed.

Lemma bounded_valid σ n v : bounded n σ v → Store.valid σ v.
Proof.
  destruct v as [| | | | |l]; try done. destruct n; [done|]. simpl.
  intros H. apply elem_of_dom. destruct (σ !! l); [done|]. done.
Qed.

Lemma truthy_read σ n v :
  bounded n σ v → truthy (Store.read n σ v) = Store.truthy v.
Proof.
  destruct v as [| | | | |l]; try (by destruct n).
  destruct n; [done|]. simpl. by destruct (σ !! l) as [[]|].
Qed.

Lemma indexed_fmap {A B} (f : A → B) (l : list A) :
  f <$> indexed l = indexed (f <$> l).
Proof.
  unfold indexed. rewrite <- list_to_map_fmap, fmap_imap, imap_fmap. done.
Qed.

Lemma sanitizeArgs_truthy (v : value) :
  truthy v = true →
  sanitizeArgs rt v =
  o1 ← hide_content rt (spread v); Ok (VObj (redact "password" (redact "token" o1))).
Proof. intros Hv. unfold sanitizeArgs. rewrite Hv. reflexivity. Qed.

Lemma spread_read σ fuel args :
  bounded fuel σ args → Store.truthy args = true →
  ∃ k, k ≤ fuel ∧ map_Forall (λ _, bounded k σ) (Store.spread σ args) ∧
       spread (Store.read fuel σ args) = Store.read k σ <$> Store.spread σ args.
Proof.
  intros Hb Ht. destruct args as [| | | |s|l]; try done.
  - exists fuel. split; [done|]. split; [done|]. destruct fuel; simpl; by rewrite fmap_empty.
  - exists fuel. split; [done|]. split; [done|]. destruct fuel; simpl; by rewrite fmap_empty.
  - exists fuel. split; [done|]. split.
    + unfold Store.spread, indexed. intros k x Hk.
      apply elem_of_list_to_map_2, list_elem_of_lookup in Hk as [i Hi].
      rewrite list_lookup_imap in Hi.
      destruct (_ !! i) as [y|] eqn:Hy; [|done]. simpl in Hi. injection Hi as _ <-.
      rewrite list_lookup_fmap in Hy.
      destruct (_ !! i); simplify_eq/=. by destruct fuel.
    + assert (Store.read fuel σ (Store.Str s) = VStr s) as -> by (by destruct fuel).
      simpl. rewrite indexed_fmap, <- list_fmap_compose. f_equal.
      apply list_fmap_ext. intros i c _. by destruct fuel.
  - destruct fuel as [|k]; [done|]. exists k. split; [lia|]. simpl in *.
    destruct (σ !! l) as [[fields|elems]|]; [done| |done]. split.
    + unfold indexed. intros j x Hj.
      apply elem_of_list_to_map_2, list_elem_of_lookup in Hj as [i Hi].
      rewrite list_lookup_imap in Hi.
      destruct (elems !! i) as [y|] eqn:Hy; [|done]. simpl in Hi. injection Hi as _ <-.
      rewrite Forall_lookup in Hb. by eapply Hb.
    + by rewrite indexed_fmap.
Qed.

Lemma length_read σ k fuel c :
  bounded k σ c → k ≤ fuel → Store.truthy c = true →
  get rt (Store.read k σ c) "length" = Ok (Store.read fuel σ (Store.length_of σ c)).
Proof.
  intros Hb Hk Ht. destruct c as [| | | |s|l]; try done.
  - by destruct k, fuel.
  - by destruct k, fuel.
  - by destruct k, fuel.
  - destruct k as [|k]; [done|]. simpl in *.
    destruct (σ !! l) as [[fields|elems]|]; [| |done].
    + simpl. rewrite lookup_fmap. f_equal.
      destruct (fields !! "length") as [x|] eqn:Hx; simpl; [|by destruct fuel].
      symmetry. apply read_bounded; [by apply (Hb _ _ Hx)|lia].
    + simpl. rewrite length_fmap. by destruct fuel.
Qed.

Lemma default_read σ k (o : gmap string Store.hval) key :
  default VUndefined ((Store.read k σ <$> o) !! key)
  = Store.read k σ (default Store.Undefined (o !! key)).
Proof. rewrite lookup_fmap. destruct (o !! key); simpl; [done|by destruct k]. Qed.

Lemma bounded_default σ k (o : gmap string Store.hval) key :
  map_Forall (λ _, bounded k σ) o → bounded k σ (default Store.Undefined (o !! key)).
Proof.
  intros Ho. destruct (o !! key) as [x|] eqn:Hx; simpl; [by apply (Ho _ _ Hx)|].
  by destruct k.
Qed.

Lemma hide_agrees σ k fuel (o : gmap string Store.hval) :
  map_Forall (λ _, bounded k σ) o → k ≤ fuel →
  hide_content rt (Store.read k σ <$> o)
  = (o1 ← hide_in_store rt fuel σ o; Ok (Store.read k σ <$> o1 : object)).
Proof.
  intros Ho Hk. unfold hide_content, hide_in_store.
  rewrite default_read.
  pose proof (bounded_default σ k o "content" Ho) as Hc.
  rewrite (truthy_read _ _ _ Hc).
  destruct (Store.truthy _) eqn:Ht; [|done].
  rewrite (length_read σ k fuel _ Hc Hk Ht). cbn [mbind result_bind].
  destruct (greater_than rt _ 200) as [[]|]; [|done..]. cbn [mbind result_bind].
  destruct (template rt _); [|done]. cbn [mbind result_bind].
  rewrite fmap_insert. f_equal. f_equal. by destruct k.
Qed.

Lemma hide_in_store_bounded σ k fuel (o o1 : gmap string Store.hval) :
  map_Forall (λ _, bounded k σ) o → hide_in_store rt fuel σ o = Ok o1 →
  map_Forall (λ _, bounded k σ) o1.
Proof.
  intros Ho. unfold hide_in_store.
  destruct (Store.truthy _); [|by intros [= <-]].
  destruct (greater_than rt _ 200) as [[]|]; [|by intros [= <-]|done].
  cbn [mbind result_bind]. destruct (template rt _); [|done].
  intros [= <-]. apply map_Forall_insert_2; [by destruct k|done].
Qed.

Lemma redact_agrees σ k key (o : gmap string Store.hval) :
  map_Forall (λ _, bounded k σ) o →
  redact key (Store.read k σ <$> o) = Store.read k σ <$> redact_in_store key o
  ∧ map_Forall (λ _, bounded k σ) (redact_in_store key o).
Proof.
  intros Ho. unfold redact, redact_in_store. rewrite default_read.
  rewrite (truthy_read _ _ _ (bounded_default σ k o key Ho)).
  destruct (Store.truthy _); [|done]. split.
  - rewrite fmap_insert. f_equal. by destruct k.
  - apply map_Forall_insert_2; [by destruct k|done].
Qed.

(** The store embedding computes what the tree embedding computes. *)
Theorem store_sanitizeArgs_refines (fuel : nat) (args : Store.hval) (σ : Store.store) :
  Store.closed σ → bounded fuel σ args →
  match Store.sanitizeArgs rt fuel args σ with
  | (Ok r, σ') => sanitizeArgs rt (Store.read fuel σ args) = Ok (Store.read (S fuel) σ' r)
  | (Throw e, _) => sanitizeArgs rt (Store.read fuel σ args) = Throw e
  end.
Proof.
  intros Hcl Hb. rewrite store_sanitizeArgs_stages.
  pose proof (truthy_read σ fuel args Hb) as Ht.
  destruct (Store.truthy args) eqn:Hargs; cbn [negb].
  2: { unfold sanitizeArgs. rewrite Ht. cbn [negb]. f_equal.
       symmetry. apply read_bounded; [done|lia]. }
  rewrite (sanitizeArgs_truthy _ Ht).
  destruct (spread_read σ fuel args Hb Hargs) as (k & Hk & Hall & ->).
  rewrite (hide_agrees σ k fuel _ Hall Hk).
  destruct (hide_in_store rt fuel σ _) as [o1|e] eqn:Hh; [|done].
  cbn [mbind result_bind]. f_equal.
  pose proof (hide_in_store_bounded σ k fuel _ _ Hall Hh) as Ho1.
  destruct (redact_agrees σ k "token" o1 Ho1) as [-> Ho2].
  destruct (redact_agrees σ k "password" _ Ho2) as [-> Ho3].
  cbn [Store.read]. rewrite lookup_insert_eq. f_equal.
  apply map_fmap_ext. intros key x Hx.
  rewrite read_alloc; [| done | apply is_fresh | by eapply bounded_valid, Ho3].
  symmetry. apply read_bounded; [by apply (Ho3 _ _ Hx)|done].
Qed.
End Refinement.

(** ** Examples *)

(** A [content] of 201 units is replaced by its length, an array of 201
    elements likewise; the nested [content] of a file is not touched. *)
Example sanitizeArgs_long_content :
  sanitizeArgs (scripted None)
    (obj [("content", VStr (String_repeat "a" 201)); ("path", VStr "README.md")])
  = Ok (obj [("content", VStr "[201 chars]"); ("path", VStr "README.md")]) ∧
  sanitizeArgs (scripted None) (obj [("content", VArr (replicate 201 VNull))])
  = Ok (obj [("content", VStr "[201 chars]")]) ∧
  sanitizeArgs (scripted None)
    (obj [("files", VArr [obj [("content", VStr (String_repeat "a" 201))]])])
  = Ok (obj [("files", VArr [obj [("content", VStr (String_repeat "a" 201))]])]).
Proof. repeat split; vm_compute; reflexivity. Qed.

(** Listing repositories without arguments: the defaults go into the
    query, and the call ends in a success envelope. *)
Example callTool_list_repositories :
  let out := callTool (scripted (Some "t"))
               {| params_name := "github_list_repositories";
                  params_arguments := obj [] |}
               (start [Responded {| status := 200; statusText := "OK";
                                    json := Some (VArr []) |}]) in
  fst out = Ok (success_envelope (VStr "<array>")) ∧
  url <$> sent (snd out)
  = ["https://api.github.com/user/repos?sort=updated&per_page=30"].
Proof. split; vm_compute; reflexivity. Qed.

(** The same call without an [arguments] member fails inside the [try], on
    reading [args.sort], and sends nothing. *)
Example callTool_without_arguments :
  let out := callTool (scripted (Some "t"))
               {| params_name := "github_list_repositories";
                  params_arguments := VUndefined |} (start []) in
  fst out
  = Ok (failure_envelope "Error: Cannot read properties of undefined (reading 'sort')") ∧
  sent (snd out) = [].
Proof. split; vm_compute; reflexivity. Qed.

(** What a call writes to the console before the operation runs. *)
Example callTool_console :
  take 6 (console (snd (callTool (scripted (Some "t"))
                          {| params_name := "github_get_user";
                             params_arguments := obj [("token", VStr "s3cret")] |}
                          (start [Responded octocat]))))
  = call_start_record "github_get_user" "1970-01-01T00:00:00.000Z" "unknown" "<object>".
Proof. vm_compute. reflexivity. Qed.

(** C4 as stated fails on falsy credentials: an empty [token] and a
    [password] of [0] are logged as they are, and two argument mappings that
    differ in their [token] only are told apart by their logged records. *)
Lemma sanitizeArgs_keeps_falsy_credentials :
  let rt := scripted None in
  sanitizeArgs rt (obj [("token", VStr "")]) = Ok (obj [("token", VStr "")]) ∧
  sanitizeArgs rt (obj [("password", num 0)]) = Ok (obj [("password", num 0)]) ∧
  sanitizeArgs rt (obj [("token", VStr "")])
  ≠ sanitizeArgs rt (obj [("token", VStr "s3cret")]).
Proof.
  split; [vm_compute; reflexivity|]. split; [vm_compute; reflexivity|].
  intros H.
  apply (f_equal (λ r, match r with Ok (VObj o) => o !! "token" | _ => None end)) in H.
  vm_compute in H. discriminate H.
Qed.

(** A token, an owner and a [content] of 201 box-drawing characters (603
    bytes of text, 201 code units): the token is redacted, the owner kept,
    the content replaced by its length. *)
Lemma sanitizeArgs_redacts_witness :
  let args := [("token", VStr "s3cret"); ("owner", VStr "octocat");
               ("content", VStr (String_repeat "═" 201))] in
  let record := [("token", VStr "[REDACTED]"); ("owner", VStr "octocat");
                 ("content", VStr "[201 chars]")] in
  sanitizeArgs (scripted None) (obj args) = Ok (obj record) ∧
  ∃ o' : object,
    obj record = VObj o' ∧
    o' !! "token" = Some (VStr "[REDACTED]") ∧
    o' !! "owner" = Some (VStr "octocat") ∧
    o' !! "content" =
      Some (VStr ("[" +:+ number_to_string (scripted None)
                            (number_of_nat (units (String_repeat "═" 201)))
                  +:+ " chars]")).
Proof.
  intros args record.
  assert (sanitizeArgs (scripted None) (obj args) = Ok (obj record)) as Hrun
    by (vm_compute; reflexivity).
  split; [exact Hrun|].
  destruct (sanitizeArgs_redacts (scripted None) _ _ Hrun)
    as (o' & Ho & Hred & _ & _ & _ & Hlong & _ & _ & _ & Hother & _).
  exists o'. split; [exact Ho|]. split; [|split].
  - apply (Hred "token" (VStr "s3cret")); [by left|reflexivity|reflexivity].
  - rewrite Hother; [reflexivity|done|]. by intros [|].
  - apply Hlong; [reflexivity|]. vm_compute. lia.
Defined.

(** A call of a name the [switch] does not know is answered with the
    failure envelope of the error thrown; a [github_get_user] call that the
    upstream answers, with the success envelope of the answer. *)
Lemma callTool_envelope_witness :
  let rt := scripted (Some "t") in
  (∃ (w' : world (list fetch_result)) (o : object),
     callTool rt {| params_name := "nonexistent_op"; params_arguments := obj [] |}
       (start []) = (Ok (VObj o), w') ∧
     o !! "content" =
       Some (VArr [obj [("type", VStr "text");
                        ("text", VStr "Error: Unknown tool: nonexistent_op")]]) ∧
     o !! "isError" = Some (VBool true)) ∧
  (∃ (w' : world (list fetch_result)) (o : object),
     callTool rt {| params_name := "github_get_user"; params_arguments := obj [] |}
       (start [Responded octocat]) = (Ok (VObj o), w') ∧
     o !! "content" =
       Some (VArr [obj [("type", VStr "text"); ("text", VStr "<object>")]]) ∧
     o !! "isError" = None).
Proof.
  intros rt. split.
  - destruct (callTool_envelope rt
                {| params_name := "nonexistent_op"; params_arguments := obj [] |}
                (start []) (obj []) eq_refl)
      as (w' & o & text & Hrun & Hcontent & _ & Houtcome).
    vm_compute in Houtcome. destruct Houtcome as [-> Herr].
    exists w', o. split; [exact Hrun|]. split; [exact Hcontent|exact Herr].
  - destruct (callTool_envelope rt
                {| params_name := "github_get_user"; params_arguments := obj [] |}
                (start [Responded octocat]) (obj []) eq_refl)
      as (w' & o & text & Hrun & Hcontent & _ & Houtcome).
    vm_compute in Houtcome. destruct Houtcome as [-> Herr].
    exists w', o. split; [exact Hrun|]. split; [exact Hcontent|exact Herr].
Defined.

(** The four cases of the contract, each on a scripted exchange. *)
Lemma githubRequest_contract_witness :
  fst (githubRequest (scripted None) "/user" "GET" VNull (start [])) =
    Throw (Error "GITHUB_TOKEN environment variable is not set") ∧
  fst (githubRequest (scripted (Some "t")) "/user" "GET" VNull
         (start [Responded {| status := 204; statusText := "No Content"; json := None |}]))
  = Ok (obj [("success", VBool true)]) ∧
  fst (githubRequest (scripted (Some "t")) "/user" "GET" VNull
         (start [Responded {| status := 404; statusText := "Not Found";
                              json := Some (obj [("message", VStr "Not Found")]) |}]))
  = Throw (Error "Not Found") ∧
  fst (githubRequest (scripted (Some "t")) "/user" "GET" VNull (start [Responded octocat]))
  = Ok (obj [("login", VStr "octocat")]).
Proof.
  split; [|split; [|split]].
  - destruct (githubRequest_contract (scripted None) "/user" "GET" VNull (start []))
      as [H _]. rewrite H; [reflexivity|reflexivity].
  - destruct (githubRequest_contract (scripted (Some "t")) "/user" "GET" VNull
        (start [Responded {| status := 204; statusText := "No Content"; json := None |}]))
      as [_ H]. destruct H as (req & Hreq & H); [done|].
    injection Hreq as <-.
    edestruct H as (H204 & _); [reflexivity|]. rewrite H204; reflexivity.
  - destruct (githubRequest_contract (scripted (Some "t")) "/user" "GET" VNull
        (start [Responded {| status := 404; statusText := "Not Found";
                             json := Some (obj [("message", VStr "Not Found")]) |}]))
      as [_ H]. destruct H as (req & Hreq & H); [done|].
    injection Hreq as <-.
    edestruct H as (_ & H404 & _); [reflexivity|].
    destruct H404 as [_ Hm]; [simpl; lia|].
    rewrite (Hm _ "Not Found" eq_refl); [reflexivity|reflexivity|done].
  - destruct (githubRequest_contract (scripted (Some "t")) "/user" "GET" VNull
        (start [Responded octocat]))
      as [_ H]. destruct H as (req & Hreq & H); [done|].
    injection Hreq as <-.
    edestruct H as (_ & _ & H200); [reflexivity|].
    rewrite (H200 ltac:(simpl; lia) ltac:(done) _ eq_refl). reflexivity.
Defined.

(** Verifying without a credential: still a success envelope. *)
Lemma githubVerifyToken_total_witness :
  ∃ payload w',
    callTool (scripted None)
      {| params_name := "github_verify_token"; params_arguments := obj [] |} (start [])
    = (Ok (envelope (scripted None) (Ok payload)), w').
Proof.
  destruct (githubVerifyToken_total (scripted None)) as [_ H].
  apply (H (obj []) (obj [])). reflexivity.
Defined.

(** A store with one argument object holding a token and an owner:
    sanitizing returns a new object with the same owner, and leaves the
    argument object and what is read through it as they were. *)
Lemma sanitizeArgs_copies_witness :
  let σ : Store.store :=
    {[ 0 := Store.Object {[ "token" := Store.Str "s3cret";
                            "owner" := Store.Str "octocat" ]} ]} in
  let out := Store.sanitizeArgs (scripted None) 1 (Store.Ref 0) σ in
  Store.closed σ ∧ Store.valid σ (Store.Ref 0) ∧
  out.1 = Ok (Store.Ref (fresh (dom σ))) ∧
  (∃ fields : gmap string Store.hval,
     (fresh (dom σ) ∉ dom σ) ∧
     out.2 = <[fresh (dom σ) := Store.Object fields]> σ ∧
     fields !! "owner" = Some (Store.Str "octocat")) ∧
  out.2 !! 0 = σ !! 0 ∧
  Store.read 2 out.2 (Store.Ref 0) = Store.read 2 σ (Store.Ref 0).
Proof.
  intros σ out.
  assert (Store.closed σ) as Hcl.
  { intros l c [<- <-]%lookup_singleton_Some.
    apply map_Forall_insert_2; [done|]. by apply map_Forall_singleton. }
  assert (Store.valid σ (Store.Ref 0)) as Hv.
  { simpl. apply elem_of_dom. by eexists. }
  destruct (sanitizeArgs_copies (scripted None) 1 (Store.Ref 0) σ)
    as (_ & Hframe & Hreturns & Hcopy & Hread).
  assert (out.1 = Ok (Store.Ref (fresh (dom σ)))) as Hout.
  { apply Hreturns; [reflexivity|]. intros l fields H. vm_compute in H. discriminate H. }
  split; [exact Hcl|]. split; [exact Hv|]. split; [exact Hout|]. split; [|split].
  - destruct (Hcopy eq_refl _ Hout) as (fields & _ & Hfresh & Hstore & Hothers & _).
    exists fields. split; [exact Hfresh|]. split; [exact Hstore|].
    rewrite Hothers; [reflexivity|]. repeat split; discriminate.
  - apply Hframe, Hv.
  - apply Hread; [exact Hcl|exact Hv].
Defined.

(** * Further properties

    Of the tool list and the informational routes, of the traffic with
    the upstream, of the log and of the session table. *)

(** ** The tool list *)
Lemma names_of_listTools : names_of listTools = catalog.
Proof. by vm_compute. Qed.

Lemma case_of_In labels name t :
  case_of labels name = Some t → (name, t) ∈ labels.
Proof.
  induction labels as [|[l t'] labels IH]; [done|]. cbn [case_of].
  case_bool_decide as Hn; [intros [= <-]; subst; left|right; auto].
Qed.

Lemma In_case_of labels name :
  name ∈ labels.*1 → is_Some (case_of labels name).
Proof.
  induction labels as [|[l t'] labels IH]; [by intros ?%elem_of_nil|].
  cbn [case_of]. case_bool_decide; [by eauto|].
  intros [?|?]%elem_of_cons; [done|auto].
Qed.

Lemma catalog_NoDup : NoDup catalog.
Proof. by apply (bool_decide_unpack _); vm_compute. Qed.

Ltac each_name H :=
  repeat (apply elem_of_cons in H as [->|H]); [..|by apply elem_of_nil in H].

Lemma named_descriptor name n d s :
  named name (descriptor n d s) = bool_decide (n = name).
Proof.
  unfold named, descriptor, obj. unfold list_to_map. cbn [foldr fst snd].
  by rewrite lookup_insert_eq.
Qed.

Lemma required_declared name k :
  k ∈ required_by name → declares name k = true.
Proof.
  destruct (descriptor_of name) as [d|] eqn:Hd.
  - unfold descriptor_of in Hd. apply find_some in Hd as [Hin Hn].
    assert (name ∈ catalog) as Hc.
    { apply list_elem_of_In in Hin. unfold tools in Hin.
      each_name Hin; rewrite named_descriptor in Hn;
        apply bool_decide_eq_true_1 in Hn as <-;
        by apply (bool_decide_unpack _); vm_compute. }
    clear d Hin Hn. unfold catalog in Hc.
    each_name Hc; intros Hk; vm_compute in Hk; each_name Hk; by vm_compute.
  - unfold required_by. rewrite Hd. by intros ?%elem_of_nil.
Qed.

Section RegistryFacts.
Context {U : Type} (rt : runtime U).

Lemma names_of_mcp_info : names_of (mcp_info rt) = catalog.
Proof. unfold mcp_info, names_of, obj. by simplify_map_eq. Qed.

(** X1.  The tool list, the list of [GET /mcp] and the [switch] of the
    call handler name the same operations: both lists carry the same names
    in the same order, none twice; a name is advertised exactly when the
    [switch] has a [case] for it; and every property a tool requires is one
    it declares. *)
Theorem catalog_agrees (name : string) :
  names_of listTools = names_of (mcp_info rt) ∧
  NoDup (names_of listTools) ∧
  (name ∈ names_of listTools ↔ is_Some (case_of case_labels name)) ∧
  (∀ k, k ∈ required_by name → declares name k = true).
Proof.
  rewrite names_of_listTools, names_of_mcp_info.
  split; [done|]. split; [apply catalog_NoDup|]. split; [|apply required_declared].
  split.
  - intros Hn. by apply In_case_of.
  - intros [t Ht]. apply case_of_In in Ht.
    by apply (list_elem_of_fmap_2 fst) in Ht.
Qed.

(** X2.  A call reads the arguments its tool declares and no others:
    on two argument objects that agree on the properties the tool list
    declares for [name], the [switch] does the same (same result, same
    requests, same world). *)
Theorem dispatch_reads_declared (name : string) (o o' : object) :
  (∀ k, declares name k = true → o !! k = o' !! k) →
  dispatch rt name (VObj o) = dispatch rt name (VObj o').
Proof.
  intros H. unfold dispatch.
  destruct (case_of case_labels name) as [t|] eqn:Ht; [|done].
  apply case_of_In in Ht. unfold case_labels in Ht. revert H.
  repeat (apply elem_of_cons in Ht as [[= -> ->]|Ht]);
    [..|by apply elem_of_nil in Ht];
    intros H; unfold run, get;
    repeat match goal with
           | |- context [o !! ?k] => rewrite (H k) by (by vm_compute)
           end;
    reflexivity.
Qed.
End RegistryFacts.

Ltac unfold_operations :=
  unfold githubVerifyToken, githubGetUser, githubListRepositories,
    githubGetRepository, githubCreateRepository, githubDeleteRepository,
    githubGetFileContents, githubCreateOrUpdateFile, githubDeleteFile,
    githubPushFiles, githubListBranches, githubCreateBranch, githubGetBranch,
    githubDeleteBranch, githubListCommits, githubGetCommit,
    githubCreatePullRequest, githubListPullRequests, githubGetPullRequest,
    githubMergePullRequest, githubCreateIssue, githubListIssues,
    githubAddComment, githubGetTree, githubListContents,
    githubSearchRepositories, githubSearchCode.

(** ** Without a credential *)
Section Unconfigured.
Context {U : Type} (rt : runtime U).
Hypothesis unset : getGithubToken rt = "".

Lemma refused_lift_bind {A B} (r : result A) (k : A → M U B) :
  (∀ a, refused (k a)) → refused (lift r ≫= k).
Proof.
  intros Hk w. rewrite bind_run. unfold lift.
  destruct r as [a|e]; [apply Hk|by exists e].
Qed.

Lemma refused_bind {A B} (m : M U A) (k : A → M U B) :
  refused m → refused (m ≫= k).
Proof. intros Hm w. rewrite bind_run. destruct (Hm w) as [e ->]. by exists e. Qed.

Lemma refused_githubRequest endpoint method body :
  refused (githubRequest rt endpoint method body).
Proof.
  intros w. exists (Error "GITHUB_TOKEN environment variable is not set").
  unfold githubRequest, request_options. by rewrite unset.
Qed.

Lemma refused_run t args : t ≠ github_verify_token → refused (run rt t args).
Proof.
  intros Ht. destruct t; [done|..]; unfold run; unfold_operations;
    repeat first [ apply refused_githubRequest
                 | apply refused_lift_bind; intros ?
                 | apply refused_bind ].
Qed.

Lemma dispatch_refused name args :
  name ≠ "github_verify_token" → refused (dispatch rt name args).
Proof.
  intros Hn. unfold dispatch.
  destruct (case_of case_labels name) as [t|] eqn:Ht; [|intros w; by eexists].
  apply refused_run. intros ->. apply Hn. revert Ht. unfold case_labels.
  cbn [case_of]. case_bool_decide; [done|].
  repeat (cbn [case_of]; case_bool_decide; [by intros [= ]|]). done.
Qed.

Lemma verify_unconfigured args w :
  dispatch rt "github_verify_token" args w =
    (Ok (obj [("valid", VBool false);
              ("error", VStr "GITHUB_TOKEN environment variable is not set")]), w).
Proof.
  change (dispatch rt "github_verify_token" args) with (githubVerifyToken rt).
  unfold githubVerifyToken, try_catch, githubGetUser. rewrite bind_run.
  unfold githubRequest, request_options. by rewrite unset.
Qed.

(** X3.  Without a credential in the environment nothing reaches the
    upstream: every call of the [switch] other than [github_verify_token]
    throws and leaves the world as it was (no request sent, nothing
    logged), whatever the name and the arguments;
    [github_verify_token] returns [{valid: false, error}] with the message
    of the credential check, the world untouched as well; and the call
    handler as a whole sends nothing. *)
Theorem dispatch_unconfigured (name : string) (args : value) (w : world U) :
  (name ≠ "github_verify_token" → ∃ e, dispatch rt name args w = (Throw e, w)) ∧
  (name = "github_verify_token" →
   dispatch rt name args w =
     (Ok (obj [("valid", VBool false);
               ("error", VStr "GITHUB_TOKEN environment variable is not set")]), w)) ∧
  sent (callTool rt {| params_name := name; params_arguments := args |} w).2 = sent w.
Proof.
  split; [intros Hn; by apply dispatch_refused|].
  split; [intros ->; apply verify_unconfigured|].
  destruct (callTool_run rt {| params_name := name; params_arguments := args |} w)
    as (w0 & Hs0 & H).
  cbn [params_name params_arguments] in H.
  destruct (sanitizeArgs rt args); [|destruct H as [-> _]; done].
  destruct H as (_ & w' & -> & Hs & _). cbn [snd]. rewrite Hs, <- Hs0.
  destruct (decide (name = "github_verify_token")) as [->|Hn].
  - by rewrite verify_unconfigured.
  - by destruct (dispatch_refused name args Hn w0) as [e ->].
Qed.
End Unconfigured.

(** ** The requests sent upstream *)
Section Traffic.
Context {U : Type} (rt : runtime U).
Implicit Types P : http_request → Prop.

Lemma sends_bind {A B} P (m : M U A) (k : A → M U B) :
  sends P m → (∀ a, sends P (k a)) → sends P (m ≫= k).
Proof.
  intros Hm Hk w. rewrite bind_run. destruct (Hm w) as (r1 & H1 & HP1).
  destruct (m w) as [[a|e] w1]; simpl in *; [|by eauto].
  destruct (Hk a w1) as (r2 & H2 & HP2). exists (r1 ++ r2).
  rewrite H2, H1, app_assoc. split; [done|by apply Forall_app].
Qed.

Lemma sends_try_catch {A} P (m : M U A) h :
  sends P m → (∀ e, sends P (h e)) → sends P (try_catch m h).
Proof.
  intros Hm Hh w. unfold try_catch. destruct (Hm w) as (r1 & H1 & HP1).
  destruct (m w) as [[a|e] w1]; simpl in *; [by eauto|].
  destruct (Hh e w1) as (r2 & H2 & HP2). exists (r1 ++ r2).
  rewrite H2, H1, app_assoc. split; [done|by apply Forall_app].
Qed.

Lemma sends_ret {A} P (a : A) : sends P (mret a : M U A).
Proof. intros w. exists []. by rewrite app_nil_r. Qed.
Lemma sends_lift {A} P (r : result A) : sends P (lift r : M U A).
Proof. intros w. exists []. by rewrite app_nil_r. Qed.
Lemma sends_throw {A} P e : sends P (throw e : M U A).
Proof. intros w. exists []. by rewrite app_nil_r. Qed.
Lemma sends_console_log P s : sends P (console_log s : M U ()).
Proof. intros w. exists []. simpl. by rewrite app_nil_r. Qed.
Lemma sends_now P : sends P (now rt).
Proof.
  intros w. unfold now. destruct (Date_now rt (ext w)).
  exists []. simpl. by rewrite app_nil_r.
Qed.
Lemma sends_send P req : P req → sends P (send rt req).
Proof.
  intros HP w. unfold send. destruct (fetch rt req (ext w)).
  exists [req]. simpl. split; [done|by constructor].
Qed.

Lemma request_options_to_upstream endpoint method body req :
  request_options rt endpoint method body = Ok req →
  to_upstream rt req.
Proof.
  unfold request_options. cbn [truthy]. case_bool_decide as Ht; [done|].
  intros [= <-]. repeat split; simpl; eauto.
Qed.

Lemma sends_githubRequest endpoint method body :
  sends (to_upstream rt) (githubRequest rt endpoint method body).
Proof.
  unfold githubRequest. intros w. rewrite bind_run. unfold lift at 1.
  destruct (request_options rt endpoint method body) as [req|e] eqn:Hreq.
  - apply request_options_to_upstream in Hreq.
    apply (sends_bind _ (send rt req)); [by apply sends_send|].
    intros r. apply sends_lift.
  - exists []. by rewrite app_nil_r.
Qed.

Lemma sends_start_all owner repo files :
  sends (to_upstream rt) (start_all rt owner repo files).
Proof.
  induction files as [|file files IH]; [apply sends_ret|]. cbn [start_all].
  apply sends_bind.
  - unfold blob_request.
    destruct (template rt _) as [endpoint|]; [|apply sends_ret].
    cbn [mbind result_bind]. destruct (get rt file "content"); [|apply sends_ret].
    cbn [mbind result_bind].
    destruct (request_options rt _ _ _) as [req|] eqn:Hreq; [|apply sends_ret].
    apply request_options_to_upstream in Hreq.
    apply sends_bind; [by apply sends_send|intros ?; apply sends_ret].
  - intros p. apply sends_bind; [done|intros ?; apply sends_ret].
Qed.

Ltac sends :=
  repeat first
    [ apply sends_githubRequest | apply sends_start_all
    | apply sends_ret | apply sends_lift | apply sends_throw
    | apply sends_console_log | apply sends_now
    | apply sends_bind; [|intros ?] | apply sends_try_catch; [|intros ?]
    | case_match ].

Lemma sends_run (t : tool) (args : value) :
  sends (to_upstream rt) (run rt t args).
Proof. destruct t; unfold run; unfold_operations; sends. Qed.

(** X4.  Whatever a call sends goes to the upstream API and carries
    the credential of the environment: the handler contacts no other host
    and never sends a request without the [Authorization] header. *)
Theorem callTool_sends_upstream (request : call_request) :
  sends (to_upstream rt) (callTool rt request).
Proof.
  unfold callTool, logToolCall, logToolResult, dispatch.
  sends; apply sends_run.
Qed.
End Traffic.

Section Plans.
Context {U : Type} (rt : runtime U).
Implicit Types p : list string.

Lemma follows_bind {A B} p1 p2 (m : M U A) (k : A → M U B) :
  follows p1 m → (∀ a, follows p2 (k a)) → follows (p1 ++ p2) (m ≫= k).
Proof.
  intros Hm Hk w. rewrite bind_run. destruct (Hm w) as (r1 & H1 & Hp1 & Hd1).
  destruct (m w) as [[a|e] w1]; simpl in *.
  - destruct (Hk a w1) as (r2 & H2 & Hp2 & Hd2). exists (r1 ++ r2).
    rewrite H2, H1, app_assoc, fmap_app, (Hd1 a eq_refl).
    split; [done|]. split; [by apply prefix_app|].
    intros b Hb. by rewrite (Hd2 b Hb).
  - exists r1. split; [done|]. split; [|done].
    by apply prefix_app_r.
Qed.

Lemma follows_bind_pure {A B} p (m : M U A) (k : A → M U B) :
  follows p m → (∀ a, follows [] (k a)) → follows p (m ≫= k).
Proof. intros Hm Hk. rewrite <- (app_nil_r p). by apply follows_bind. Qed.

Lemma follows_lift_bind {A B} p (r : result A) (k : A → M U B) :
  (∀ a, r = Ok a → follows p (k a)) → follows p (lift r ≫= k).
Proof.
  intros Hk w. rewrite bind_run. unfold lift. destruct r as [a|e]; [by apply Hk|].
  exists []. simpl. rewrite app_nil_r. split; [done|]. split; [apply prefix_nil|done].
Qed.

Lemma follows_ret {A} (a : A) : follows [] (mret a : M U A).
Proof. intros w. exists []. simpl. by rewrite app_nil_r. Qed.

Lemma follows_lift {A} (r : result A) : follows [] (lift r : M U A).
Proof. intros w. exists []. simpl. by rewrite app_nil_r. Qed.

Lemma follows_githubRequest endpoint verb body :
  follows [verb] (githubRequest rt endpoint verb body).
Proof.
  intros w. destruct (request_options rt endpoint verb body) as [req|e] eqn:Hreq.
  - rewrite (githubRequest_run _ _ _ _ _ _ Hreq). exists [req]. simpl.
    assert (method req = verb) as ->; [|done].
    revert Hreq. unfold request_options. destruct (negb _); [done|]. by intros [= <-].
  - unfold githubRequest. rewrite bind_run. unfold lift. rewrite Hreq.
    exists []. simpl. rewrite app_nil_r. split; [done|]. split; [apply prefix_nil|done].
Qed.

(** The uploads: a request for every file whose request could be built,
    all of them when none failed on the spot. *)
Lemma start_all_sent owner repo files w :
  ∃ ps w' reqs,
    start_all rt owner repo files w = (Ok ps, w') ∧ sent w' = sent w ++ reqs ∧
    method <$> reqs `prefix_of` replicate (length files) "POST" ∧
    (already_rejected ps = None → method <$> reqs = replicate (length files) "POST").
Proof.
  revert w. induction files as [|file files IH]; intros w.
  - exists [], w, []. simpl. by rewrite app_nil_r.
  - cbn [start_all]. rewrite bind_run.
    destruct (blob_request rt owner repo file) as [req|e] eqn:Hreq.
    + rewrite bind_run. unfold send. destruct (fetch rt req (ext w)) as [r u].
      cbn [mret M_ret]. rewrite bind_run.
      destruct (IH {| ext := u; sent := sent w ++ [req]; console := console w |})
        as (ps & w' & reqs & -> & Hs & Hp & Hd).
      exists ((file, inr r) :: ps), w', (req :: reqs).
      rewrite fmap_cons. cbn [length replicate already_rejected sent] in *.
      assert (method req = "POST") as ->.
      { revert Hreq. unfold blob_request.
        destruct (template rt _); [|done]. cbn [mbind result_bind].
        destruct (get rt file "content"); [|done]. cbn [mbind result_bind].
        unfold request_options. destruct (negb _); [done|]. by intros [= <-]. }
      split; [done|]. split; [by rewrite Hs, <- app_assoc|].
      split; [by apply prefix_cons|]. intros Hn. by rewrite (Hd Hn).
    + cbn [mret M_ret]. rewrite bind_run.
      destruct (IH w) as (ps & w' & reqs & -> & Hs & Hp & Hd).
      exists ((file, inl e) :: ps), w', reqs. simpl.
      split; [done|]. split; [done|]. split; [|done].
      change ("POST" :: replicate (length files) "POST")
        with (replicate (S (length files)) "POST").
      rewrite replicate_S_end. by apply prefix_app_r.
Qed.

Lemma follows_blobs {B} p owner repo fs (k : list value → M U B) :
  (∀ items, follows p (k items)) →
  follows (replicate (length fs) "POST" ++ p)
    (ps ← start_all rt owner repo fs; treeItems ← lift (Promise_all rt ps); k treeItems).
Proof.
  intros Hk w. rewrite bind_run.
  destruct (start_all_sent owner repo fs w) as (ps & w' & reqs & -> & Hs & Hp & Hd).
  rewrite bind_run. unfold lift, Promise_all.
  destruct (already_rejected ps) as [e|].
  - exists reqs. simpl. split; [done|]. split; [by apply prefix_app_r|done].
  - destruct (mapM _ ps) as [items|e].
    + destruct (Hk items w') as (r2 & H2 & Hp2 & Hd2). exists (reqs ++ r2).
      rewrite H2, Hs, app_assoc, fmap_app, (Hd eq_refl).
      split; [done|]. split; [by apply prefix_app|].
      intros b Hb. by rewrite (Hd2 b Hb).
    + exists reqs. simpl. split; [done|]. split; [by apply prefix_app_r|done].
Qed.

Lemma files_of_arguments args files :
  get rt args "files" = Ok files →
  match args with
  | VObj o => match o !! "files" with Some (VArr l) => l | _ => [] end
  | _ => []
  end = match files with VArr l => l | _ => [] end.
Proof.
  destruct args as [| | | |s|l'|o]; cbn [get]; try done;
    try (by intros [= <-]); try (case_bool_decide; by intros [= <-]).
  intros [= <-]. by destruct (o !! "files") as [[]|].
Qed.

Ltac follows_lifts :=
  repeat lazymatch goal with
         | |- follows _ (lift _ ≫= _) => apply follows_lift_bind; intros ? _
         end.

Ltac follows_pure :=
  repeat first [ progress follows_lifts | apply follows_ret
               | apply follows_lift | case_match ].

Ltac follows_one :=
  follows_lifts;
  first [ apply follows_githubRequest
        | apply follows_bind_pure; [apply follows_githubRequest|intros ?; follows_pure] ].

Lemma follows_githubCreateBranch owner repo branchName fromBranch :
  follows ["GET"; "POST"] (githubCreateBranch rt owner repo branchName fromBranch).
Proof.
  unfold githubCreateBranch, githubGetBranch.
  apply (follows_bind ["GET"] ["POST"]); [follows_one|intros ?; follows_one].
Qed.

Lemma follows_githubPushFiles owner repo files message branch :
  follows (["GET"; "GET"] ++
           replicate (length (match files with VArr l => l | _ => [] end)) "POST" ++
           ["POST"; "POST"; "PATCH"])
          (githubPushFiles rt owner repo files message branch).
Proof.
  unfold githubPushFiles. apply follows_lift_bind; intros ? _.
  apply (follows_bind ["GET"]); [apply follows_githubRequest|intros ?].
  do 2 (apply follows_lift_bind; intros ? _).
  apply (follows_bind ["GET"]); [apply follows_githubRequest|intros ?].
  apply follows_lift_bind; intros ? _.
  apply follows_lift_bind; intros fs Hfs.
  assert (files = VArr fs) as -> by (by destruct files; try done; injection Hfs as ->).
  apply follows_blobs; intros ?.
  apply follows_lift_bind; intros ? _.
  apply (follows_bind ["POST"]); [apply follows_githubRequest|intros ?].
  do 2 (apply follows_lift_bind; intros ? _).
  apply (follows_bind ["POST"]); [apply follows_githubRequest|intros ?].
  do 2 (apply follows_lift_bind; intros ? _).
  apply follows_bind_pure; [apply follows_githubRequest|intros ?; follows_pure].
Qed.

(** X5.  The requests of an operation follow its [plan]: the methods
    of the requests a [case] sends are a prefix of the plan of its tool, in
    order, and the whole plan whenever the operation returns
    ([github_verify_token] returns also when its one request failed).  So a
    reading tool only ever sends [GET]; [github_create_branch] sends its
    [POST] only after its [GET]; and [github_push_files] sends a [POST] per
    file after its two [GET]s and its [PATCH] last. *)
Theorem run_follows_plan (t : tool) (args : value) (w : world U) :
  ∃ reqs, sent (run rt t args w).2 = sent w ++ reqs ∧
          method <$> reqs `prefix_of` plan t args ∧
          (t ≠ github_verify_token →
           ∀ v, (run rt t args w).1 = Ok v → method <$> reqs = plan t args).
Proof.
  assert (t ≠ github_verify_token → follows (plan t args) (run rt t args)) as H.
  { intros Ht. destruct t; [done|..]; unfold run, plan;
      try (unfold_operations; follows_one; fail).
    - (* github_push_files *)
      do 2 (apply follows_lift_bind; intros ? _).
      apply follows_lift_bind; intros files Hfiles.
      do 2 (apply follows_lift_bind; intros ? _).
      rewrite (files_of_arguments _ _ Hfiles). apply follows_githubPushFiles.
    - do 4 (apply follows_lift_bind; intros ? _). apply follows_githubCreateBranch. }
  assert (t = github_verify_token ∨ t ≠ github_verify_token) as [->|Ht]
    by (destruct t; auto).
  - clear H. unfold run, plan, githubVerifyToken, try_catch.
    match goal with |- context [match ?m w with _ => _ end] =>
      assert (follows ["GET"] m) as H
        by (apply follows_bind_pure;
            [apply follows_githubRequest|intros ?; follows_pure]);
      destruct (H w) as (reqs & Hs & Hp & _); exists reqs;
      destruct (m w) as [[?|?] ?]
    end; done.
  - destruct (H Ht w) as (reqs & ? & ? & ?). eauto.
Qed.
End Plans.

Section UpstreamAnswers.
Context {U : Type} (rt : runtime U).

(** X6.  The message of a failed request, when the upstream gives none:
    a body that is not JSON makes it the status text, and an empty status
    text or a JSON object without a truthy [message] makes it
    [GitHub API error: <status>]. *)
Theorem read_response_fallback (r : response) :
  ¬ (200 ≤ status r ≤ 299)%Z →
  (json r = None →
   read_response rt r =
     Throw (Error (if bool_decide (statusText r = "")
                   then "GitHub API error: " +:+ pretty (status r)
                   else statusText r))) ∧
  (∀ o : object,
     json r = Some (VObj o) → truthy (default VUndefined (o !! "message")) = false →
     read_response rt r = Throw (Error ("GitHub API error: " +:+ pretty (status r)))).
Proof.
  intros Hs. unfold read_response, ok.
  rewrite (bool_decide_false (status r = 204%Z)) by lia.
  rewrite (bool_decide_false _ Hs). cbn [negb]. split.
  - intros ->. unfold obj, get, list_to_map. cbn [foldr fst snd].
    rewrite lookup_insert_eq.
    change (default VUndefined (Some ?x)) with x.
    cbn [mbind result_bind]. unfold or_else. cbn [truthy].
    by case_bool_decide.
  - intros o -> Hm. cbn [get mbind result_bind]. unfold or_else. by rewrite Hm.
Qed.

(** X7.  [githubRequest] returns a value only for an answer in 200..299:
    the value of a 204, or the parsed body.  A rejected [fetch], a status
    outside that range and a body that does not parse never come back as a
    value. *)
Theorem githubRequest_returns_2xx endpoint verb data (w w' : world U) (v : value) :
  githubRequest rt endpoint verb data w = (Ok v, w') →
  ∃ req r u,
    request_options rt endpoint verb data = Ok req ∧
    fetch rt req (ext w) = (Responded r, u) ∧
    (200 ≤ status r ≤ 299)%Z ∧
    (if bool_decide (status r = 204%Z)
     then v = obj [("success", VBool true)] else json r = Some v) ∧
    w' = {| ext := u; sent := sent w ++ [req]; console := console w |}.
Proof.
  destruct (request_options rt endpoint verb data) as [req|e] eqn:Hreq.
  - rewrite (githubRequest_run _ _ _ _ _ _ Hreq).
    destruct (fetch rt req (ext w)) as [[r|e] u] eqn:Hf;
      cbn [fst snd settle mbind result_bind]; [|by intros [=]].
    unfold read_response, ok.
    intros H. exists req, r, u. split; [done|]. split; [done|].
    case_bool_decide as H204.
    + injection H as <- <-. split; [lia|done].
    + case_bool_decide as Hok; cbn [negb] in H.
      * destruct (json r); [|done]. by injection H as <- <-.
      * destruct (get rt _ _); [|done]. cbn [mbind result_bind] in H.
        by destruct (ToString rt _).
  - unfold githubRequest. rewrite bind_run. unfold lift. by rewrite Hreq.
Qed.

(** X8.  Both informational routes report the credential as the request
    primitive sees it: [tokenConfigured] is [true] exactly when
    [githubRequest] gets past its credential check; [/health] sends and
    logs nothing. *)
Theorem tokenConfigured_tells (w : world U) :
  ∃ (b : bool) payload w',
    health rt w = (Ok payload, w') ∧ sent w' = sent w ∧ console w' = console w ∧
    get rt payload "tokenConfigured" = Ok (VBool b) ∧
    get rt (mcp_info rt) "tokenConfigured" = Ok (VBool b) ∧
    (b = true ↔ ∀ endpoint verb data,
                  ∃ req, request_options rt endpoint verb data = Ok req).
Proof.
  unfold health. rewrite bind_run.
  destruct (now_run rt w) as (t & w' & -> & Hs & Hc).
  exists (truthy (VStr (getGithubToken rt))). eexists _, w'.
  split; [reflexivity|]. split; [done|]. split; [done|].
  split; [unfold obj, get; by simplify_map_eq|].
  split; [unfold mcp_info, obj, get; by simplify_map_eq|].
  unfold request_options. destruct (truthy _); cbn [negb]; split; try done.
  - eauto.
  - intros H. by destruct (H "" "" VNull).
Qed.
End UpstreamAnswers.

(** ** More on strings *)
Lemma units_append (s t : string) : units (s +:+ t) = units s + units t.
Proof.
  induction s as [|c s IH]; [done|].
  change (width c + units (s +:+ t) = width c + units s + units t).
  rewrite IH. lia.
Qed.

Lemma width_of_byte (n : N) :
  (n < 256)%N →
  width (Ascii.ascii_of_N n) =
    if ((128 <=? n) && (n <? 192))%N then 0 else if (240 <=? n)%N then 2 else 1.
Proof. intros Hn. unfold width, continuation. by rewrite Ascii.N_ascii_embedding. Qed.

(** A surrogate takes one code unit. *)
Lemma units_three_bytes (u : N) :
  (2048 ≤ u < 65536)%N → units (three_bytes u) = 1.
Proof.
  intros Hu. unfold three_bytes. cbn [units].
  assert (u / 4096 < 16)%N by (apply N.Div0.div_lt_upper_bound; lia).
  pose proof (N.mod_upper_bound (u / 64) 64 ltac:(done)).
  pose proof (N.mod_upper_bound u 64 ltac:(done)).
  generalize dependent (u / 4096)%N. generalize dependent ((u / 64) mod 64)%N.
  generalize dependent (u mod 64)%N. intros c Hc b Hb a Ha.
  rewrite !width_of_byte by lia.
  repeat match goal with
         | |- context [(?a <=? ?b)%N] => destruct (N.leb_spec a b); try lia
         | |- context [(?a <? ?b)%N] => destruct (N.ltb_spec a b); try lia
         end; simpl; lia.
Qed.

Lemma units_high_surrogate (s : string) : units (surrogates s).1 = 1.
Proof.
  unfold surrogates. cbn [fst]. apply units_three_bytes.
  match goal with |- context [(?p - 65536)%N] => set (point := p) end.
  assert (point < 2097152)%N.
  { subst point.
    repeat match goal with
           | |- context [(?a mod ?b)%N] =>
               pose proof (N.mod_upper_bound a b ltac:(done));
               generalize dependent (a mod b)%N; intros
           end. lia. }
  assert ((point - 65536) / 1024 < 2048)%N
    by (apply N.Div0.div_lt_upper_bound; lia).
  generalize dependent ((point - 65536) / 1024)%N. intros; lia.
Qed.

Lemma units_substring (n : nat) (s : string) :
  units (substring_to_units n s) = n `min` units s.
Proof.
  revert n. induction s as [|b s IH]; intros n; [by destruct n|].
  cbn [substring_to_units]. destruct (Nat.leb_spec (width b) n) as [Hw|Hw].
  - cbn [units]. rewrite IH. lia.
  - destruct n as [|n]; [done|]. rewrite units_high_surrogate. cbn [units].
    assert (width b ≤ 2) by (unfold width; repeat case_match; lia). lia.
Qed.

Lemma substring_all (n : nat) (s : string) :
  units s ≤ n → substring_to_units n s = s.
Proof.
  revert n. induction s as [|b s IH]; intros n Hn; [done|].
  cbn [substring_to_units units] in *.
  destruct (Nat.leb_spec (width b) n) as [Hw|Hw]; [|lia].
  rewrite IH; [done|lia].
Qed.

(** Indexing and [length] agree: a string has as many code units as
    [units] counts. *)
Lemma code_units_length (s : string) : length (code_units s) = units s.
Proof.
  unfold code_units. induction s as [|b s IH]; [done|].
  cbn [characters units]. destruct (characters s) as [rest cs].
  unfold width. destruct (continuation b); cbn [snd] in *; [done|].
  rewrite bind_cons, length_app, IH.
  by destruct (240 <=? Ascii.N_of_ascii b)%N.
Qed.

(** A box-drawing character is three bytes of text and one code unit, an
    emoji four bytes and two code units; cutting inside the emoji leaves its
    first half. *)
Example units_of_text :
  String.length "═" = 3 ∧ units "═" = 1 ∧ units "😀" = 2 ∧
  units (String_repeat "═" 100) = 100 ∧
  length (code_units "a═😀") = 4 ∧
  substring_to_units 2 "a═😀" = "a═" ∧
  units (substring_to_units 3 "a═😀") = 3 ∧
  substring_to_units 4 "a═😀" = "a═😀".
Proof. repeat split; vm_compute; reflexivity. Qed.

(** Decimal digits: a number below [10 ^ k] has at most [k] of them. *)
Lemma pretty_N_go_units (k : nat) (x : N) (s : string) :
  (x < 10 ^ N.of_nat k)%N → units (pretty_N_go x s) ≤ k + units s.
Proof.
  revert x s. induction k as [|k IH]; intros x s Hx.
  - assert (x = 0%N) as -> by (simpl in Hx; lia). rewrite pretty_N_go_0. lia.
  - assert (x = 0 ∨ 0 < x)%N as [->|Hpos] by lia.
    { rewrite pretty_N_go_0. lia. }
    rewrite pretty_N_go_step by done.
    etrans; [apply IH|].
    + apply N.Div0.div_lt_upper_bound.
      rewrite Nat2N.inj_succ, N.pow_succ_r' in Hx. lia.
    + cbn [units].
      assert (width (pretty_N_char (x `mod` 10)) = 1) as ->; [|lia].
      unfold pretty_N_char. by repeat case_match.
Qed.

Lemma pretty_nat_units (n : nat) :
  (Z.of_nat n < 2 ^ 53)%Z → units (pretty (Z.of_nat n)) ≤ 16.
Proof.
  intros Hn. destruct n as [|n]; [simpl; lia|].
  change (pretty (Z.of_nat (S n))) with (pretty_N_go (N.pos (Pos.of_succ_nat n)) "").
  etrans; [apply (pretty_N_go_units 16)|simpl; lia].
  change (10 ^ N.of_nat 16)%N with (Z.to_N (10 ^ 16)).
  assert (2 ^ 53 < 10 ^ 16)%Z by done. lia.
Qed.

Lemma pretty_N_go_ne_content x s s' :
  s ≠ "c" +:+ s' → pretty_N_go x s ≠ "c" +:+ s'.
Proof.
  revert s. induction (N.lt_wf_0 x) as [x _ IH]; intros s ?.
  assert (x = 0 ∨ 0 < x)%N as [->|?] by lia.
  - by rewrite pretty_N_go_0.
  - rewrite pretty_N_go_step by done. apply IH.
    { by apply N.div_lt. }
    unfold pretty_N_char. by repeat case_match.
Qed.

Lemma indexed_content {A} (l : list A) : indexed l !! "content" = None.
Proof.
  unfold indexed. apply not_elem_of_list_to_map_1.
  rewrite fmap_imap. intros (i & x & Hc & _)%elem_of_lookup_imap_1.
  simpl in Hc. unfold pretty, pretty_nat, pretty, pretty_N in Hc.
  case_decide; [done|]. symmetry in Hc.
  by apply (pretty_N_go_ne_content _ "" "ontent") in Hc.
Qed.

(** ** What the log records *)
Section LogFacts.
Context {U : Type} (rt : runtime U).

Lemma sanitizeArgs_stages (args : value) :
  sanitizeArgs rt args =
  if negb (truthy args) then Ok args
  else o1 ← hide_content rt (spread args);
       Ok (VObj (redact "password" (redact "token" o1))).
Proof. reflexivity. Qed.

Lemma hide_content_returns (o : object) :
  (∀ c, o !! "content" ≠ Some (VObj c)) → ∃ o1, hide_content rt o = Ok o1.
Proof.
  intros Hc. unfold hide_content.
  destruct (o !! "content") as [v|]; [|by eauto].
  change (default VUndefined (Some v)) with v.
  destruct v as [| |b|n|s|l|c]; cbn [truthy]; try (by eauto);
    [by destruct b; eauto|by repeat case_match; eauto| | |by destruct (Hc c)].
  - destruct (negb _); [|by eauto]. cbn [get]. rewrite bool_decide_true by done.
    cbn [mbind result_bind].
    rewrite greater_than_length. cbn [mbind result_bind].
    case_bool_decide; eauto.
  - cbn [get]. rewrite bool_decide_true by done. cbn [mbind result_bind].
    rewrite greater_than_length. cbn [mbind result_bind].
    case_bool_decide; eauto.
Qed.

Lemma sanitizeArgs_returns (args : value) :
  (∀ o c, args = VObj o → o !! "content" ≠ Some (VObj c)) →
  ∃ sanitized, sanitizeArgs rt args = Ok sanitized.
Proof.
  intros Hc. rewrite sanitizeArgs_stages. destruct (negb _); [by eauto|].
  destruct (hide_content_returns (spread args)) as [o1 ->]; [|by eauto].
  intros c. destruct args as [| | | |s|l|o]; cbn [spread];
    rewrite ?lookup_empty, ?indexed_content; try done. by apply Hc.
Qed.

(** X9.  A call whose [content] argument is not a plain object always
    gets an envelope back: logging the arguments cannot throw then, and
    whatever the operation does is caught. *)
Theorem callTool_returns_envelope (request : call_request) (w : world U) :
  (∀ o c, params_arguments request = VObj o → o !! "content" ≠ Some (VObj c)) →
  ∃ outcome w', callTool rt request w = (Ok (envelope rt outcome), w').
Proof.
  intros Hc. destruct (sanitizeArgs_returns _ Hc) as [sanitized Hs].
  destruct (callTool_returns rt request w sanitized Hs) as (w0 & w' & H). eauto.
Qed.

(** X10.  A string [content] never takes more than 200 code units of
    the logged arguments: one of at most 200 code units is logged as it is,
    a longer one is replaced by the text [[<length> chars]], which has at
    most 25. *)
Theorem sanitizeArgs_bounds_content (o : object) (s : string) :
  o !! "content" = Some (VStr s) → (Z.of_nat (units s) < 2 ^ 53)%Z →
  let t := if bool_decide (units s ≤ 200) then s
           else "[" +:+ pretty (Z.of_nat (units s)) +:+ " chars]" in
  ∃ r : object,
    sanitizeArgs rt (VObj o) = Ok (VObj r) ∧ r !! "content" = Some (VStr t) ∧
    units t ≤ 200.
Proof.
  intros Hs Hlen t. rewrite sanitizeArgs_object, (hide_content_string rt o s Hs).
  cbn [mbind result_bind]. eexists. split; [reflexivity|].
  rewrite !redact_lookup_ne by done. subst t.
  destruct (decide (units s ≤ 200)) as [Hl|Hl].
  - rewrite (bool_decide_true (units s ≤ 200)), bool_decide_false by lia. done.
  - rewrite (bool_decide_false (units s ≤ 200)), bool_decide_true by lia.
    rewrite lookup_insert_eq, (number_to_string_length rt _ Hlen).
    split; [done|]. rewrite !units_append.
    pose proof (pretty_nat_units _ Hlen). simpl. lia.
Qed.

(** X11.  The preview of a result in the log is the first 500 code units
    of its JSON text, and the ellipsis follows exactly when the text has 500
    code units or more. *)
Theorem logToolResult_preview name (result : value) (d : Z) (w : world U) :
  result ≠ VUndefined →
  let text := JSON_text rt 0 result in
  ∃ l1 l2 l4 preview w',
    logToolResult rt name result d false w = (Ok (), w') ∧
    console w' = console w ++
      [l1; l2;
       "📤 Response: " +:+ preview +:+
         (if bool_decide (500 ≤ units text) then "..." else "");
       l4] ∧
    preview = substring_to_units 500 text ∧
    units preview = 500 `min` units text ∧
    (units text ≤ 500 → preview = text).
Proof.
  intros Hr text.
  assert (JSON_stringify rt 0 result = VStr text) as Hj by (by destruct result).
  unfold logToolResult. rewrite Hj. unfold substring_to, lift, console_log.
  eexists _, _, _, (substring_to_units 500 text), _.
  split; [reflexivity|]. cbn [console]. rewrite <- !app_assoc.
  split; [|split; [done|split; [apply units_substring|apply substring_all]]].
  do 4 f_equal. rewrite units_substring.
  destruct (500 <=? _) eqn:Hle; case_bool_decide; try done.
  - apply Nat.leb_le in Hle. lia.
  - apply Nat.leb_nle in Hle. lia.
Qed.
End LogFacts.

(** ** Sessions over time *)
Section SessionFacts.
Context {G R : Type} (h : host G R).
Implicit Types (st : state G R) (g : G).

(** What one request does to the table: nothing, one binding more for a
    [POST] that names no session of the table, or one less for a
    [DELETE]. *)
Lemma serve_sessions g n st req :
  consistent h g n st →
  sessions (serve h st req) = sessions st
  ∨ (∃ header, req = POST header ∧
       sessions (serve h st req) =
         <[fst (randomUUID h (generator st)) :=
             {| transport := S (objects st); server := objects st |}]> (sessions st))
  ∨ (∃ id, req = DELETE (Some id) ∧
       sessions (serve h st req) = delete id (sessions st)).
Proof.
  intros Hc. destruct req as [header|header]; simpl.
  - destruct (post_mcp_sessions h g n st header Hc) as (-> & _).
    destruct (known header st) as [s|] eqn:Hk.
    + destruct (known_Some _ _ _ Hk) as (id & -> & _ & Hs).
      rewrite (resolve_known h _ _ id s eq_refl Hk). by left.
    + rewrite (resolve_unknown h _ _ Hk).
      destruct (randomUUID h (generator st)) as [id g']. cbv zeta.
      destruct (connect h _ (library st)) as [[e|] r]; simpl; [by left|].
      right. left. by exists header.
  - unfold delete_mcp. destruct header as [id|]; [|by left].
    destruct (known _ _); [|by left]. right. right. by exists id.
Qed.

(** X12.  A session lasts until it is terminated: in any state the
    server can reach, identifiers being what [randomUUID] promises, a
    binding of the table is still there, unchanged, after any request other
    than the [DELETE] that names it. *)
Theorem session_persists g st (req : mcp_request) (id : string) (s : session) :
  unique_ids h g → reachable h g st →
  sessions st !! id = Some s → req ≠ DELETE (Some id) →
  sessions (serve h st req) !! id = Some s.
Proof.
  intros Hu [n Hc]%consistent_reachable Hs Hreq.
  destruct (serve_sessions g n st req Hc) as [->|[(header & -> & ->)|(id' & -> & ->)]].
  - done.
  - rewrite lookup_insert_ne; [done|]. intros Heq.
    pose proof (next_uuid_fresh h g n st Hu Hc) as Hf. congruence.
  - rewrite lookup_delete_ne; [done|]. congruence.
Qed.

Lemma reachable_paired g st id s :
  reachable h g st → sessions st !! id = Some s → transport s = S (server s).
Proof.
  intros (r & reqs & ->). revert id s.
  induction reqs as [|req reqs IH] using rev_ind; intros id s.
  - simpl. by rewrite lookup_empty.
  - rewrite foldl_snoc.
    destruct (consistent_reachable h g (foldl (serve h) (initial g r) reqs))
      as [n Hc]; [by exists r, reqs|].
    destruct (serve_sessions g n _ req Hc) as [->|[(header & -> & ->)|(id' & -> & ->)]].
    + apply IH.
    + intros [[_ <-]|[_ Hs]]%lookup_insert_Some; [done|by eapply IH].
    + intros [_ Hs]%lookup_delete_Some. by eapply IH.
Qed.

(** X13.  Sessions share nothing: in any state the server can reach,
    two different identifiers of the table are bound to different
    transports and to different servers. *)
Theorem sessions_share_nothing g st (id1 id2 : string) (s1 s2 : session) :
  reachable h g st →
  sessions st !! id1 = Some s1 → sessions st !! id2 = Some s2 → id1 ≠ id2 →
  transport s1 ≠ transport s2 ∧ server s1 ≠ server s2.
Proof.
  intros Hr H1 H2 Hne. destruct (consistent_reachable h g st Hr) as [n Hc].
  pose proof (keys_captured _ _ _ _ Hc _ _ H1) as Hc1.
  pose proof (keys_captured _ _ _ _ Hc _ _ H2) as Hc2.
  pose proof (reachable_paired g st _ _ Hr H1) as Hp1.
  pose proof (reachable_paired g st _ _ Hr H2) as Hp2.
  assert (transport s1 ≠ transport s2) as Ht by (intros Heq; congruence).
  split; [done|lia].
Qed.
End SessionFacts.

Lemma append_assoc (s t u : string) : (s +:+ t) +:+ u = s +:+ (t +:+ u).
Proof.
  induction s as [|c s IH]; [done|].
  change (String c ((s +:+ t) +:+ u) = String c (s +:+ (t +:+ u))). by rewrite IH.
Qed.

Section ArgumentFacts.
Context {U : Type} (rt : runtime U).

(** X14.  Arguments go into the path of the endpoint as they are,
    nothing is escaped: an owner that contains a slash names the same
    endpoint as the owner before the slash with the rest moved into the
    repository name. *)
Theorem endpoint_segments_raw (owner middle repo : string) :
  githubGetRepository rt (VStr (owner +:+ "/" +:+ middle)) (VStr repo) =
  githubGetRepository rt (VStr owner) (VStr (middle +:+ "/" +:+ repo)).
Proof.
  unfold githubGetRepository. f_equal. f_equal.
  cbn [template ToString mbind result_bind]. f_equal.
  rewrite !append_empty_r. change ("/repos/" +:+ ?s) with (String.append "/repos/" s).
  f_equal. by rewrite !append_assoc.
Qed.

(** X15.  A call without an arguments object: every advertised tool
    that takes arguments fails on reading the first of them, with the
    engine's TypeError for a property read of [undefined] (or [null]), and
    sends nothing; the handler answers with the failure envelope of that
    error. *)
Theorem dispatch_without_arguments (name : string) (args : value) (w : world U) :
  args = VUndefined ∨ args = VNull →
  name ∈ catalog → name ≠ "github_verify_token" → name ≠ "github_get_user" →
  ∃ k,
    (∀ w0, dispatch rt name args w0 =
             (Throw (TypeError (fault_message rt (ReadOfNullish args k))), w0)) ∧
    ∃ w', callTool rt {| params_name := name; params_arguments := args |} w =
            (Ok (failure_envelope
                   ("Error: " +:+ fault_message rt (ReadOfNullish args k))), w')
          ∧ sent w' = sent w.
Proof.
  intros Ha Hn H1 H2.
  assert (∃ k, ∀ w0, dispatch rt name args w0 =
            (Throw (TypeError (fault_message rt (ReadOfNullish args k))), w0))
    as [k Hk].
  { unfold catalog in Hn.
    repeat (apply elem_of_cons in Hn as [->|Hn]);
      [done|done|..|by apply elem_of_nil in Hn];
      destruct Ha as [-> | ->]; eexists; intros w0; reflexivity. }
  exists k. split; [done|].
  destruct (callTool_run rt {| params_name := name; params_arguments := args |} w)
    as (w0 & Hs0 & H).
  cbn [params_name params_arguments] in H.
  assert (sanitizeArgs rt args = Ok args) as Hsan by (by destruct Ha as [-> | ->]).
  rewrite Hsan, Hk in H. destruct H as (_ & w' & -> & Hs & _).
  exists w'. split; [done|]. simpl in Hs. congruence.
Qed.
End ArgumentFacts.

(** ** Arguments left out, files read and files pushed *)
Section OperationFacts.
Context {U : Type} (rt : runtime U).

(** X16.  An argument left out is the default of the signature: for
    every parameter with a default value, a call whose arguments lack it
    does what the call with the default value put in does. *)
Theorem omitted_is_default (name k : string) (d : value) (o : object) :
  (name, k, d) ∈ defaults → o !! k = None →
  dispatch rt name (VObj o) = dispatch rt name (VObj (<[k := d]> o)).
Proof.
  intros Hin Hk. unfold defaults in Hin.
  repeat (apply elem_of_cons in Hin as [[= -> -> ->]|Hin]);
    [..|by apply elem_of_nil in Hin];
    unfold dispatch;
    repeat match goal with
           | |- context [case_of case_labels ?n] =>
               let r := eval vm_compute in (case_of case_labels n) in
               change (case_of case_labels n) with r
           end;
    unfold run, get;
    rewrite ?lookup_insert_eq, ?Hk; rewrite ?lookup_insert_ne by done;
    reflexivity.
Qed.

Lemma start_all_sends owner repo files w :
  ∃ ps w',
    start_all rt owner repo files w = (Ok ps, w') ∧
    sent w' = sent w ++ omap (upload rt owner repo) files ∧
    ps.*1 = files ∧ console w' = console w.
Proof.
  revert w. induction files as [|file files IH]; intros w.
  - exists [], w. simpl. by rewrite app_nil_r.
  - cbn [start_all omap list_omap]. unfold upload at 1. rewrite bind_run.
    destruct (blob_request rt owner repo file) as [req|e].
    + rewrite bind_run. unfold send. destruct (fetch rt req (ext w)) as [r u].
      cbn [mret M_ret]. rewrite bind_run.
      destruct (IH {| ext := u; sent := sent w ++ [req]; console := console w |})
        as (ps & w' & -> & Hs & Hf & Hc).
      exists ((file, inr r) :: ps), w'. cbn [sent console] in *.
      rewrite Hs, <- app_assoc, fmap_cons, Hf. done.
    + cbn [mret M_ret]. rewrite bind_run.
      destruct (IH w) as (ps & w' & -> & Hs & Hf & Hc).
      exists ((file, inl e) :: ps), w'. by rewrite fmap_cons, Hf.
Qed.

(** X17.  [githubPushFiles] starts every upload before it looks at an
    answer: the requests sent for the files are the blob requests of the
    files that have one, in the order of the array, whatever the upstream
    answers to any of them.  The request for a file is a [POST] to the
    blobs of the repository with the file's [content], marked [utf-8]. *)
Theorem uploads_all_start owner repo (files : list value) (w : world U) :
  (∃ ps w', start_all rt owner repo files w = (Ok ps, w') ∧
            sent w' = sent w ++ omap (upload rt owner repo) files) ∧
  ∀ file req, upload rt owner repo file = Some req →
    method req = "POST" ∧
    ∃ endpoint content,
      template rt [Lit "/repos/"; Sub owner; Lit "/"; Sub repo; Lit "/git/blobs"]
        = Ok endpoint ∧
      get rt file "content" = Ok content ∧
      url req = GITHUB_API_URL +:+ endpoint ∧
      body req = Some (JSON_text rt 0 (obj [("content", content);
                                            ("encoding", VStr "utf-8")])).
Proof.
  split.
  - destruct (start_all_sends owner repo files w) as (ps & w' & ? & ? & _). eauto.
  - intros file req. unfold upload, blob_request.
    destruct (template rt _) as [endpoint|]; [|done]. cbn [mbind result_bind].
    destruct (get rt file "content") as [content|]; [|done].
    cbn [mbind result_bind]. unfold request_options.
    destruct (negb _); [done|]. intros [= <-]. split; [done|].
    by exists endpoint, content.
Qed.
End OperationFacts.

Lemma bind_Ok {U A B} (m : M U A) (k : A → M U B) w b w' :
  (m ≫= k) w = (Ok b, w') → ∃ a w1, m w = (Ok a, w1) ∧ k a w1 = (Ok b, w').
Proof. rewrite bind_run. destruct (m w) as [[a|e] w1]; [by eauto|done]. Qed.

Lemma lift_Ok {U A} (r : result A) (w w' : world U) a :
  lift r w = (Ok a, w') → r = Ok a ∧ w' = w.
Proof. unfold lift. by intros [= -> ->]. Qed.

Lemma base64_cases {T} (encoding : value) (a b : T) :
  (encoding = VStr "base64" ∧
   match encoding with VStr "base64" => a | _ => b end = a) ∨
  (encoding ≠ VStr "base64" ∧
   match encoding with VStr "base64" => a | _ => b end = b).
Proof.
  destruct encoding as [| | | |s| |]; try (by right).
  destruct (decide (s = "base64")) as [->|Hne]; [by left|right].
  split; [congruence|].
  do 6 (destruct s as [|[[] [] [] [] [] [] [] []] s]; try done).
  by destruct s.
Qed.

Section FileContents.
Context {U : Type} (rt : runtime U).

(** X18.  [githubGetFileContents] passes the upstream answer on: what
    it returns is the answer itself, or, for an answer with a truthy
    [content] in [base64], the answer with the decoded text added as
    [decodedContent]; every other field reads as in the answer. *)
Theorem githubGetFileContents_passes_through owner repo path ref
    (w w' : world U) (v : value) :
  githubGetFileContents rt owner repo path ref w = (Ok v, w') →
  ∃ endpoint data,
    githubRequest rt endpoint "GET" VNull w = (Ok data, w') ∧
    (∀ k, k ≠ "decodedContent" → get rt v k = get rt data k) ∧
    (v = data ∨
     ∃ content decoded,
       get rt data "content" = Ok content ∧ truthy content = true ∧
       get rt data "encoding" = Ok (VStr "base64") ∧
       Buffer_from_base64 rt content = Ok decoded ∧
       v = assign data "decodedContent" (VStr decoded)).
Proof.
  unfold githubGetFileContents. intros H.
  apply bind_Ok in H as (endpoint & w1 & [_ ->]%lift_Ok & H).
  apply bind_Ok in H as (data & w2 & Hd & H).
  apply bind_Ok in H as (content & w3 & [Hc ->]%lift_Ok & H).
  exists endpoint, data.
  destruct (truthy content) eqn:Ht.
  - apply bind_Ok in H as (encoding & w3 & [He ->]%lift_Ok & H).
    destruct (base64_cases encoding
                (decoded ← lift (Buffer_from_base64 rt content);
                 mret (assign data "decodedContent" (VStr decoded)) : M U value)
                (mret data)) as [[-> Hm]|[Hne Hm]];
      apply (f_equal (λ m, m w2)) in Hm; cbv beta in Hm;
      (assert (∀ x y z : result value * world U, x = y → x = z → y = z) as Htr
         by (by intros ??? -> ->));
      apply (Htr _ _ _ Hm) in H; clear Hm Htr.
    + apply bind_Ok in H as (decoded & w3 & [Hb ->]%lift_Ok & H).
      injection H as <- <-. split; [done|]. split.
      * intros k Hk. destruct data as [| | | | | |o]; try done.
        cbn [assign get]. by rewrite lookup_insert_ne.
      * right. by exists content, decoded.
    + injection H as <- <-. split; [done|]. split; [done|by left].
  - injection H as <- <-. split; [done|]. split; [done|by left].
Qed.
End FileContents.

Section SessionErrors.
Context {G R : Type} (h : host G R).
Implicit Types (st : state G R) (g : G).

(** X19.  What a 500 of [POST /mcp] leaves behind, in any state the
    server can reach.  Without the session header on the response,
    [server.connect] threw: the message is that error's and the table is as
    it was, no session registered.  With the header, the transport threw
    while handling the request: the message is that error's and the session
    named in the header is in the table all the same. *)
Theorem post_mcp_internal_error g st (header hd : option string) (msg : string) :
  reachable h g st →
  (post_mcp h header st).1 = InternalError hd msg →
  match hd with
  | None =>
      sessions (post_mcp h header st).2 = sessions st ∧
      ∃ e, (resolve h header st).1 = Throw e ∧ msg = message e
  | Some id =>
      ∃ s e, sessions (post_mcp h header st).2 !! id = Some s ∧
             failure (handleRequest h (transport s) (library (resolve h header st).2)).1
             = Some e ∧ msg = message e
  end.
Proof.
  intros [n Hc]%consistent_reachable.
  destruct (post_mcp_sessions h g n st header Hc) as (Hs & _).
  destruct (consistent_resolve h g n st header Hc) as (n' & _ & Hin).
  rewrite Hs. clear Hs. unfold post_mcp.
  destruct (resolve h header st) as [[[id s]|e] st1] eqn:Hr; cbn [fst snd] in *.
  - destruct (handleRequest h (transport s) (library st1)) as [hd' r] eqn:Hh.
    destruct (failure hd') as [e|] eqn:Hf; [|done].
    intros [= <- <-]. exists s, e. by rewrite Hh.
  - intros [= <- <-]. split; [|by eauto].
    revert Hr. unfold resolve.
    destruct header as [id|]; [destruct (known (Some id) st); [done|]|];
      destruct (randomUUID h (generator st)) as [sid g'];
      destruct (connect h _ (library st)) as [[e'|] r]; by intros [= _ <-].
Qed.
End SessionErrors.

(** A library whose [connect] throws. *)
Lemma post_mcp_internal_error_witness :
  let refusing : host nat () :=
    {| randomUUID := randomUUID counting;
       connect := λ _ r, (Some (Error "no transport"), r);
       handleRequest := handleRequest counting |} in
  sessions (post_mcp refusing None (initial 0 ())).2 = sessions (initial 0 ()) ∧
  ∃ e, (resolve refusing None (initial 0 ())).1 = Throw e ∧
       "no transport" = message e.
Proof.
  intros refusing.
  apply (post_mcp_internal_error refusing 0 (initial 0 ()) None None "no transport").
  - by exists (), [].
  - reflexivity.
Defined.

(** ** The further properties at work *)

(** An argument the tool does not declare changes nothing. *)
Lemma dispatch_reads_declared_witness :
  let o : object := list_to_map [("owner", VStr "octocat"); ("repo", VStr "hello")] in
  dispatch (scripted (Some "t")) "github_get_repository" (VObj o) =
  dispatch (scripted (Some "t")) "github_get_repository"
    (VObj (<["verbose" := VBool true]> o)).
Proof.
  intros o. apply dispatch_reads_declared. intros k Hk.
  destruct (decide (k = "verbose")) as [->|Hne].
  - vm_compute in Hk. discriminate Hk.
  - by rewrite lookup_insert_ne.
Defined.

(** No credential: the call throws in the world it started in. *)
Lemma dispatch_unconfigured_witness :
  getGithubToken (scripted None) = "" ∧
  ∃ e, dispatch (scripted None) "github_get_user" VUndefined (start []) =
         (Throw e, start []).
Proof.
  split; [reflexivity|].
  apply (dispatch_unconfigured (scripted None) eq_refl "github_get_user" VUndefined
           (start [])).
  done.
Defined.

(** A 404 whose body is not JSON fails with the status text. *)
Lemma read_response_fallback_witness :
  read_response (scripted None)
    {| status := 404; statusText := "Not Found"; json := None |} =
  Throw (Error "Not Found").
Proof.
  apply (read_response_fallback (scripted None)
           {| status := 404; statusText := "Not Found"; json := None |}).
  - simpl. lia.
  - reflexivity.
Defined.

(** A value came back, so the answer was in 200..299. *)
Lemma githubRequest_returns_2xx_witness :
  let rt := scripted (Some "t") in
  let w := start [Responded octocat] in
  ∃ req r u,
    request_options rt "/user" "GET" VNull = Ok req ∧
    fetch rt req (ext w) = (Responded r, u) ∧
    (200 ≤ status r ≤ 299)%Z ∧
    (if bool_decide (status r = 204%Z)
     then obj [("login", VStr "octocat")] = obj [("success", VBool true)]
     else json r = Some (obj [("login", VStr "octocat")])) ∧
    (githubRequest rt "/user" "GET" VNull w).2 =
      {| ext := u; sent := sent w ++ [req]; console := console w |}.
Proof.
  intros rt w.
  apply (githubRequest_returns_2xx rt "/user" "GET" VNull w).
  reflexivity.
Defined.

(** A call without arguments gets an envelope. *)
Lemma callTool_returns_envelope_witness :
  let rt := scripted (Some "t") in
  ∃ outcome w',
    callTool rt {| params_name := "github_get_user"; params_arguments := VUndefined |}
      (start [Responded octocat]) = (Ok (envelope rt outcome), w').
Proof.
  intros rt. apply callTool_returns_envelope. simpl. intros o c H. discriminate H.
Defined.

(** A [content] of 100 box-drawing characters, 300 bytes of text and 100
    code units, is logged as it is. *)
Lemma sanitizeArgs_bounds_content_witness :
  let s := String_repeat "═" 100 in
  let o : object := list_to_map [("content", VStr s)] in
  let t := if bool_decide (units s ≤ 200) then s
           else "[" +:+ pretty (Z.of_nat (units s)) +:+ " chars]" in
  ∃ r : object,
    sanitizeArgs (scripted None) (VObj o) = Ok (VObj r) ∧
    r !! "content" = Some (VStr t) ∧ units t ≤ 200.
Proof.
  intros s o. apply sanitizeArgs_bounds_content.
  - reflexivity.
  - vm_compute. reflexivity.
Defined.

(** The preview of a string of 200 box-drawing characters: its JSON text
    has fewer than 500 code units and is logged whole. *)
Lemma logToolResult_preview_witness :
  let rt := scripted None in
  let text := JSON_text rt 0 (VStr (String_repeat "═" 200)) in
  ∃ l1 l2 l4 preview w',
    logToolResult rt "github_get_user" (VStr (String_repeat "═" 200)) 0 false (start [])
      = (Ok (), w') ∧
    console w' = console (start []) ++
      [l1; l2;
       "📤 Response: " +:+ preview +:+
         (if bool_decide (500 ≤ units text) then "..." else "");
       l4] ∧
    preview = substring_to_units 500 text ∧
    units preview = 500 `min` units text ∧
    (units text ≤ 500 → preview = text).
Proof.
  intros rt text.
  apply (logToolResult_preview rt "github_get_user" (VStr (String_repeat "═" 200)) 0
           (start [])).
  discriminate.
Defined.

(** The first session outlives a second [POST]. *)
Lemma session_persists_witness :
  let st := foldl (serve counting) (initial 0 ()) [POST None] in
  sessions (serve counting st (POST None)) !! "session-0"
  = Some {| transport := 1; server := 0 |}.
Proof.
  intros st.
  apply (session_persists counting 0 st (POST None) "session-0").
  - exact counting_unique.
  - by exists (), [POST None].
  - reflexivity.
  - discriminate.
Defined.

(** Two sessions, two transports and two servers. *)
Lemma sessions_share_nothing_witness :
  let st := foldl (serve counting) (initial 0 ()) [POST None; POST None] in
  transport {| transport := 1; server := 0 |} ≠ transport {| transport := 3; server := 2 |}
  ∧ server {| transport := 1; server := 0 |} ≠ server {| transport := 3; server := 2 |}.
Proof.
  intros st.
  apply (sessions_share_nothing counting 0 st "session-0" "session-1").
  - by exists (), [POST None; POST None].
  - reflexivity.
  - reflexivity.
  - discriminate.
Defined.

(** [github_get_repository] without arguments. *)
Lemma dispatch_without_arguments_witness :
  let rt := scripted (Some "t") in
  ∃ k,
    (∀ w0, dispatch rt "github_get_repository" VUndefined w0 =
             (Throw (TypeError (fault_message rt (ReadOfNullish VUndefined k))), w0)) ∧
    ∃ w', callTool rt {| params_name := "github_get_repository";
                         params_arguments := VUndefined |} (start []) =
            (Ok (failure_envelope
                   ("Error: " +:+ fault_message rt (ReadOfNullish VUndefined k))), w')
          ∧ sent w' = sent (start []).
Proof.
  intros rt. apply dispatch_without_arguments.
  - by left.
  - apply (bool_decide_unpack _). by vm_compute.
  - discriminate.
  - discriminate.
Defined.

(** Listing repositories with no arguments sorts by [updated]. *)
Lemma omitted_is_default_witness :
  dispatch (scripted (Some "t")) "github_list_repositories" (VObj ∅) =
  dispatch (scripted (Some "t")) "github_list_repositories"
    (VObj (<["sort" := VStr "updated"]> ∅)).
Proof.
  apply omitted_is_default.
  - apply list_elem_of_here.
  - reflexivity.
Defined.

(** A file answer without [content] comes back as it is. *)
Lemma githubGetFileContents_passes_through_witness :
  let rt := scripted (Some "t") in
  let w := start [Responded octocat] in
  let v := obj [("login", VStr "octocat")] in
  let w' := (githubGetFileContents rt (VStr "o") (VStr "r") (VStr "f") VUndefined w).2 in
  ∃ endpoint data,
    githubRequest rt endpoint "GET" VNull w = (Ok data, w') ∧
    (∀ k, k ≠ "decodedContent" → get rt v k = get rt data k) ∧
    (v = data ∨
     ∃ content decoded,
       get rt data "content" = Ok content ∧ truthy content = true ∧
       get rt data "encoding" = Ok (VStr "base64") ∧
       Buffer_from_base64 rt content = Ok decoded ∧
       v = assign data "decodedContent" (VStr decoded)).
Proof.
  intros rt w v w'.
  apply (githubGetFileContents_passes_through rt (VStr "o") (VStr "r") (VStr "f")
           VUndefined w w' v).
  reflexivity.
Defined.
